(** * Result-distribution pipeline of the BrightSign NPU object extension

    A shallow embedding of the formatter, transport, publisher and
    class-filter code (publisher.cpp, utils.cc, file_transport.cpp,
    main.cpp, yolo.h) together with the properties the design document
    states about them. *)

From Stdlib Require Import ZArith String Ascii List Bool Lia.
From Stdlib Require Import Floats.SpecFloat.
From stdpp Require Import gmap strings list fin_maps pretty.

Set Warnings "-register-all".

Open Scope string_scope.
Open Scope list_scope.
Open Scope Z_scope.

(* ===================================================================== *)
(** * Part I: the program *)
(* ===================================================================== *)

(** ** Integers and decimal rendering

    A C++ [int] is kept as a [Z]; the only arithmetic the embedded code
    performs on one is [++] on a counter bounded by the capacity of the
    detection array and one division in the publisher loop.
    [std::to_string] on a signed integer prints its decimal digits with a
    leading minus sign for negative values. *)

Definition to_string (z : Z) : string := pretty z.

(** [a + "!!" + b + ...]: the fields of a BrightScript message. *)
Fixpoint join (sep : string) (fields : list string) : string :=
  match fields with
  | [] => ""
  | [f] => f
  | f :: rest => f +:+ sep +:+ join sep rest
  end.

(** ** yolo.h *)

Definition OBJ_NUMB_MAX_SIZE : nat := 128.

Record box_rect_t := mk_box {
  left : Z;
  top : Z;
  right : Z;
  bottom : Z
}.

(** [prop] is a C [float]; its values are the binary32 subset of
    [spec_float], on which the IEEE comparisons of SpecFloat are the
    comparisons the compiled code performs.  [name] is the C string held
    in the [char name[OBJ_NAME_MAX_SIZE]] buffer. *)
Record object_detect_result := mk_det {
  box : box_rect_t;
  prop : spec_float;
  cls_id : Z;
  name : string
}.

(** [results] is a fixed array of [OBJ_NUMB_MAX_SIZE] slots of which the
    first [count] are meaningful; slots past [count] hold stale data. *)
Record object_detect_result_list := mk_list {
  count : Z;
  results : list object_detect_result
}.

(** ** inference.h (declaration not in the tree; fields as the code uses
    them).  [timestamp] is the [system_clock::time_point], in clock ticks. *)

Record InferenceResult := mk_result {
  detections : object_detect_result_list;
  timestamp : Z;
  selected_classes : list Z
}.

(** [std::chrono::system_clock::to_time_t]: libstdc++'s system clock ticks
    in nanoseconds and the conversion to seconds truncates toward zero. *)
Definition to_time_t (tp : Z) : Z := Z.quot tp 1000000000.

(** The elements every formatter loop visits:
    [for (int i = 0; i < result.detections.count; ++i) results[i]].
    A non-positive [count] visits nothing; the array never holds more than
    [OBJ_NUMB_MAX_SIZE] slots. *)
Definition visited (l : object_detect_result_list) : list object_detect_result :=
  take (Z.to_nat (count l)) (take OBJ_NUMB_MAX_SIZE (results l)).

(** ** utils.cc *)

(** [std::find(first, last, x)] as the offset of the returned iterator from
    [first]; the offset equals the length when the result is [last]. *)
Fixpoint std_find (v : list Z) (x : Z) : nat :=
  match v with
  | [] => O
  | y :: v' => if Z.eqb y x then O else S (std_find v' x)
  end.

Definition vector_empty {A} (v : list A) : bool :=
  match v with [] => true | _ => false end.

Definition isClassSelected (class_id : Z) (selected : list Z) : bool :=
  if vector_empty selected then true
  else negb (Nat.eqb (std_find selected class_id) (length selected)).

(** [std::getline(ss, tok, ',')] on the unread remainder of the stream:
    fails when nothing is left, otherwise yields the characters before the
    first comma and leaves the stream after that comma. *)
Fixpoint take_until_comma (s : string) : string * string :=
  match s with
  | EmptyString => ("", "")
  | String c s' =>
      if Ascii.eqb c "," then ("", s')
      else let '(tok, rest) := take_until_comma s' in (String c tok, rest)
  end.

Definition getline (stream : string) : option (string * string) :=
  match stream with
  | EmptyString => None
  | _ => Some (take_until_comma stream)
  end.

Definition is_blank (c : ascii) : bool :=
  Ascii.eqb c " " || Ascii.eqb c "009".

(** [s.erase(0, s.find_first_not_of(" \t"))] *)
Fixpoint erase_leading (s : string) : string :=
  match s with
  | EmptyString => ""
  | String c s' => if is_blank c then erase_leading s' else s
  end.

(** [s.erase(s.find_last_not_of(" \t") + 1)] *)
Fixpoint erase_trailing (s : string) : string :=
  match s with
  | EmptyString => ""
  | String c s' =>
      match erase_trailing s' with
      | EmptyString => if is_blank c then "" else String c ""
      | kept => String c kept
      end
  end.

(** The [while (std::getline(...))] loop of [parseClassNames]; every
    successful [getline] consumes at least one character, so a fuel of the
    stream length plus one is never exhausted. *)
Fixpoint parse_loop (fuel : nat) (stream : string)
    (class_mapping : gmap string Z) (selected : list Z) : list Z :=
  match fuel with
  | O => selected
  | S fuel' =>
      match getline stream with
      | None => selected
      | Some (tok, rest) =>
          let class_name := erase_trailing (erase_leading tok) in
          let selected' :=
            match class_name with
            | EmptyString => selected
            | _ => match class_mapping !! class_name with
                   | Some id => selected ++ [id]
                   | None => selected
                   end
            end in
          parse_loop fuel' rest class_mapping selected'
      end
  end.

Definition parseClassNames (classes_str : string)
    (class_mapping : gmap string Z) : list Z :=
  match classes_str with
  | EmptyString => []
  | _ => parse_loop (S (String.length classes_str)) classes_str class_mapping []
  end.

(** ** The C++ runtime the code is linked against

    What the standard library and nlohmann::json leave to the
    implementation is taken as an interface: the escaping of a string and
    the rendering of a float inside [json::dump], the order in which a
    [std::unordered_map<std::string,int>] is iterated (a permutation of
    its entries that may depend on the sequence of keys inserted), and
    [std::filesystem::path::parent_path].  Class names are label text, so
    [dump] is taken to escape every name it meets; its refusal of byte
    sequences that are not UTF-8 is outside the model. *)

Class CxxRuntime := {
  json_escape : string → string;
  json_float : spec_float → string;
  unordered_order : list string → gmap string Z → list (string * Z);
  unordered_order_perm : ∀ keys m, unordered_order keys m ≡ₚ map_to_list m;
  parent_path : string → string
}.

(** ** nlohmann::json values

    An object is a [std::map<std::string, json>]: its members are kept
    sorted by key under [std::less<std::string>], which is what [dump]
    prints. *)

Inductive json :=
| JInt (z : Z)
| JFloat (f : spec_float)
| JString (s : string)
| JArray (items : list json)
| JObject (members : list (string * json)).

(** [j[key] = v] on an object. *)
Fixpoint obj_set (key : string) (v : json) (members : list (string * json))
    : list (string * json) :=
  match members with
  | [] => [(key, v)]
  | (k, w) :: rest =>
      match String.compare key k with
      | Eq => (key, v) :: rest
      | Lt => (key, v) :: (k, w) :: rest
      | Gt => (k, w) :: obj_set key v rest
      end
  end.

(** [j.find(key)] / [j.contains(key)]. *)
Fixpoint obj_get (key : string) (members : list (string * json)) : option json :=
  match members with
  | [] => None
  | (k, w) :: rest => if String.eqb key k then Some w else obj_get key rest
  end.

Definition dquote : string := String (ascii_of_nat 34) "".

Section Dump.
Context `{CxxRuntime}.

Definition dump_string (s : string) : string :=
  dquote +:+ json_escape s +:+ dquote.

(** [json::dump()] with the default arguments: compact, no indentation. *)
Fixpoint dump (j : json) : string :=
  match j with
  | JInt z => to_string z
  | JFloat f => json_float f
  | JString s => dump_string s
  | JArray items => "[" +:+ join "," (map dump items) +:+ "]"
  | JObject members =>
      "{" +:+
      join "," (map (λ kv, dump_string (fst kv) +:+ ":" +:+ dump (snd kv)) members)
      +:+ "}"
  end.
End Dump.

(** ** publisher.cpp: the formatters *)

(** [detection.prop <= 0.0f || detection.cls_id < 0] *)
Definition is_invalid (d : object_detect_result) : bool :=
  SFleb (prop d) (S754_zero false) || (cls_id d <? 0).

(** [class_counts[name]++] on a [std::unordered_map<std::string,int>]:
    [operator[]] value-initialises a missing entry to 0. *)
Definition count_incr (class_name : string) (class_counts : gmap string Z)
    : gmap string Z :=
  <[class_name := default 0 (class_counts !! class_name) + 1]> class_counts.

(** The initialiser [{{"person", 0}}]. *)
Definition person_floor : gmap string Z := {["person" := 0]}.

Inductive MessageFormatter :=
| JsonMessageFormatter (suppress_empty : bool)
| BSVariableMessageFormatter
| FacesJsonMessageFormatter
| FacesBSMessageFormatter
| SelectiveJsonMessageFormatter (class_mapping : gmap string string)
| SelectiveBSMessageFormatter (class_mapping : gmap string string)
| FullJsonMessageFormatter (suppress_empty : bool).

(** [MappedMessageFormatter::extractSelectedClasses] *)
Definition extractSelectedClasses (result : InferenceResult)
    : list object_detect_result :=
  foldl (λ selected_detections detection,
           if is_invalid detection then selected_detections
           else if isClassSelected (cls_id detection) (selected_classes result)
                then selected_detections ++ [detection]
                else selected_detections)
        [] (visited (detections result)).

(** [MappedMessageFormatter::mapClassName] *)
Definition mapClassName (class_mapping : gmap string string)
    (original_name : string) : string :=
  match class_mapping !! original_name with
  | Some mapped => mapped
  | None => original_name
  end.

(** The counting loop of [JsonMessageFormatter::formatMessage], returning
    the table together with the keys handed to [operator[]], in order. *)
Definition Json_class_counts (result : InferenceResult)
    : list string * gmap string Z :=
  foldl (λ (acc : list string * gmap string Z) detection,
           let '(keys, class_counts) := acc in
           if is_invalid detection
              || negb (isClassSelected (cls_id detection) (selected_classes result))
           then (keys, class_counts)
           else (keys ++ [name detection], count_incr (name detection) class_counts))
        (["person"], person_floor) (visited (detections result)).

(** The counting loop shared by the two Selective formatters. *)
Definition Selective_class_counts (class_mapping : gmap string string)
    (result : InferenceResult) : list string * gmap string Z :=
  foldl (λ (acc : list string * gmap string Z) detection,
           let '(keys, class_counts) := acc in
           let mapped_name := mapClassName class_mapping (name detection) in
           (keys ++ [mapped_name], count_incr mapped_name class_counts))
        (["person"], person_floor) (extractSelectedClasses result).

(** [int people_count] of the two Faces formatters. *)
Definition people_count (result : InferenceResult) : Z :=
  foldl (λ n detection, if cls_id detection =? 0 then n + 1 else n)
        0 (visited (detections result)).

(** The detection object [det] of [FullJsonMessageFormatter]. *)
Definition detection_json (detection : object_detect_result) : json :=
  let bbox :=
    obj_set "bottom" (JInt (bottom (box detection)))
      (obj_set "right" (JInt (right (box detection)))
        (obj_set "top" (JInt (top (box detection)))
          (obj_set "left" (JInt (left (box detection))) []))) in
  JObject
    (obj_set "bbox" (JObject bbox)
      (obj_set "confidence" (JFloat (prop detection))
        (obj_set "class_name" (JString (name detection))
          (obj_set "class_id" (JInt (cls_id detection)) [])))).

(** The [detections] array of [FullJsonMessageFormatter]. *)
Definition FullJson_detections (result : InferenceResult) : list json :=
  foldl (λ arr detection,
           if is_invalid detection
              || negb (isClassSelected (cls_id detection) (selected_classes result))
           then arr
           else arr ++ [detection_json detection])
        [] (visited (detections result)).

Section Formatters.
Context `{CxxRuntime}.

(** [for (const auto& [class_name, count] : class_counts) j[class_name] = count;] *)
Definition add_class_counts (counts : list string * gmap string Z)
    (j : list (string * json)) : list (string * json) :=
  foldl (λ j (entry : string * Z),
           let '(class_name, n) := entry in obj_set class_name (JInt n) j)
        j (unordered_order (fst counts) (snd counts)).

Definition JsonMessageFormatter_json (result : InferenceResult)
    : list (string * json) :=
  let j := obj_set "timestamp" (JInt (to_time_t (timestamp result))) [] in
  add_class_counts (Json_class_counts result) j.

(** The member [suppress_empty] is never read. *)
Definition JsonMessageFormatter_formatMessage (suppress_empty : bool)
    (result : InferenceResult) : string :=
  dump (JObject (JsonMessageFormatter_json result)).

Definition BSVariableMessageFormatter_formatMessage
    (result : InferenceResult) : string :=
  "detection_count:" +:+ to_string (count (detections result)) +:+ "!!" +:+
  "timestamp:" +:+ to_string (to_time_t (timestamp result)).

Definition FacesJsonMessageFormatter_json (result : InferenceResult)
    : list (string * json) :=
  let n := people_count result in
  obj_set "timestamp" (JInt (to_time_t (timestamp result)))
    (obj_set "faces_attending" (JInt n)
      (obj_set "faces_in_frame_total" (JInt n) [])).

Definition FacesJsonMessageFormatter_formatMessage
    (result : InferenceResult) : string :=
  dump (JObject (FacesJsonMessageFormatter_json result)).

Definition FacesBSMessageFormatter_formatMessage
    (result : InferenceResult) : string :=
  let n := people_count result in
  "faces_in_frame_total:" +:+ to_string n +:+ "!!" +:+
  "faces_attending:" +:+ to_string n +:+ "!!" +:+
  "timestamp:" +:+ to_string (to_time_t (timestamp result)).

Definition SelectiveJsonMessageFormatter_json
    (class_mapping : gmap string string) (result : InferenceResult)
    : list (string * json) :=
  let j := obj_set "timestamp" (JInt (to_time_t (timestamp result))) [] in
  add_class_counts (Selective_class_counts class_mapping result) j.

Definition SelectiveJsonMessageFormatter_formatMessage
    (class_mapping : gmap string string) (result : InferenceResult) : string :=
  dump (JObject (SelectiveJsonMessageFormatter_json class_mapping result)).

(** The message-building loop of [SelectiveBSMessageFormatter], with its
    [first] flag. *)
Definition bs_entries (entries : list (string * Z)) : string * bool :=
  foldl (λ (acc : string * bool) (entry : string * Z),
           let '(message, first) := acc in
           let '(class_name, n) := entry in
           let message := if first then message else message +:+ "!!" in
           (message +:+ (class_name +:+ ":" +:+ to_string n), false))
        ("", true) entries.

Definition string_empty (s : string) : bool :=
  match s with EmptyString => true | _ => false end.

Definition SelectiveBSMessageFormatter_formatMessage
    (class_mapping : gmap string string) (result : InferenceResult) : string :=
  let counts := Selective_class_counts class_mapping result in
  let message := fst (bs_entries (unordered_order (fst counts) (snd counts))) in
  let message := if string_empty message then message else message +:+ "!!" in
  message +:+ ("timestamp:" +:+ to_string (to_time_t (timestamp result))).

Definition FullJsonMessageFormatter_json (result : InferenceResult)
    : list (string * json) :=
  let j := obj_set "timestamp" (JInt (to_time_t (timestamp result))) [] in
  let detections := FullJson_detections result in
  let j := obj_set "detections" (JArray detections) j in
  obj_set "detection_count" (JInt (Z.of_nat (length detections))) j.

Definition FullJsonMessageFormatter_formatMessage (suppress_empty : bool)
    (result : InferenceResult) : string :=
  if suppress_empty && vector_empty (FullJson_detections result) then ""
  else dump (JObject (FullJsonMessageFormatter_json result)).

(** The virtual call [formatter->formatMessage(result)]. *)
Definition formatMessage (formatter : MessageFormatter)
    (result : InferenceResult) : string :=
  match formatter with
  | JsonMessageFormatter suppress_empty =>
      JsonMessageFormatter_formatMessage suppress_empty result
  | BSVariableMessageFormatter =>
      BSVariableMessageFormatter_formatMessage result
  | FacesJsonMessageFormatter =>
      FacesJsonMessageFormatter_formatMessage result
  | FacesBSMessageFormatter =>
      FacesBSMessageFormatter_formatMessage result
  | SelectiveJsonMessageFormatter class_mapping =>
      SelectiveJsonMessageFormatter_formatMessage class_mapping result
  | SelectiveBSMessageFormatter class_mapping =>
      SelectiveBSMessageFormatter_formatMessage class_mapping result
  | FullJsonMessageFormatter suppress_empty =>
      FullJsonMessageFormatter_formatMessage suppress_empty result
  end.
End Formatters.

(** ** The outside world: file-system calls

    Every call the transport makes on the file system is appended to a
    log; whether a call succeeds is decided by the environment, which may
    look at everything that happened so far. *)

Inductive io_call :=
| IoExists (path : string)
| IoCreateDirectories (path : string)
| IoOpenTrunc (path : string)
| IoWriteFlush (path data : string)
| IoOpenRead (path : string)
| IoFsync (path : string)
| IoRename (from to : string)
| IoRemove (path : string).

Record World := mk_world {
  respond : list io_call → io_call → bool;
  log : list io_call
}.

Definition IO (A : Type) : Type := World → A * World.

Definition ret {A} (a : A) : IO A := λ w, (a, w).

Definition bind {A B} (m : IO A) (k : A → IO B) : IO B :=
  λ w, let '(a, w') := m w in k a w'.

Notation "x <- m ;; k" := (bind m (λ x, k))
  (at level 100, m at next level, right associativity).

Definition call (c : io_call) : IO bool :=
  λ w, (respond w (log w) c, mk_world (respond w) (log w ++ [c])).

(** ** transport.h (declaration not in the tree): the abstract class
    [Transport] with its two pure virtual members.  [send] is not a const
    member, so it hands back the object it ran on. *)

Class Transport (T : Type) := {
  send : T → string → IO (bool * T);
  isConnected : T → bool
}.

(** ** transports/file_transport.cpp *)

Record FileTransport := mk_file_transport {
  filepath : string;
  enabled : bool
}.

Section FileTransportCode.
Context `{CxxRuntime}.

Definition FileTransport_ctor (path : string) : IO FileTransport :=
  let dir := parent_path path in
  if string_empty dir then ret (mk_file_transport path true)
  else
    there <- call (IoExists dir) ;;
    if there then ret (mk_file_transport path true)
    else
      created <- call (IoCreateDirectories dir) ;;
      ret (mk_file_transport path created).
End FileTransportCode.

Definition FileTransport_send (this : FileTransport) (data : string)
    : IO (bool * FileTransport) :=
  if negb (enabled this) then ret (false, this)
  else
    let temp_filepath := filepath this +:+ ".tmp" in
    opened <- call (IoOpenTrunc temp_filepath) ;;
    if negb opened then ret (false, this)
    else
      written <- call (IoWriteFlush temp_filepath data) ;;
      if negb written then ret (false, this)
      else
        fd <- call (IoOpenRead temp_filepath) ;;
        synced <- (if fd then call (IoFsync temp_filepath) else ret true) ;;
        if negb synced then ret (false, this)
        else
          renamed <- call (IoRename temp_filepath (filepath this)) ;;
          if renamed then ret (true, this)
          else
            _ <- call (IoRemove temp_filepath) ;;
            ret (false, this).

Definition FileTransport_isConnected (this : FileTransport) : bool :=
  enabled this.

#[export] Instance FileTransport_Transport : Transport FileTransport := {|
  send := FileTransport_send;
  isConnected := FileTransport_isConnected
|}.

(** The members a client can invoke on a constructed [FileTransport]. *)
Inductive file_op :=
| OpSend (data : string)
| OpIsConnected.

Definition file_step (this : FileTransport) (op : file_op)
    : IO (bool * FileTransport) :=
  match op with
  | OpSend data => FileTransport_send this data
  | OpIsConnected => ret (FileTransport_isConnected this, this)
  end.

(** Running a sequence of member calls, collecting what each returned. *)
Fixpoint file_run (this : FileTransport) (ops : list file_op)
    : IO (list bool * FileTransport) :=
  match ops with
  | [] => ret ([], this)
  | op :: ops' =>
      first <- file_step this op ;;
      others <- file_run (snd first) ops' ;;
      ret (fst first :: fst others, snd others)
  end.

(** ** publisher.cpp: the publisher

    [resultQueue] and [running] are references; a reference is modelled
    by the address of the object it is bound to. *)

Definition queue_ref := nat.
Definition flag_ref := nat.

Record Publisher (T : Type) := mk_publisher {
  transport : T;
  resultQueue : queue_ref;
  running : flag_ref;
  target_mps : Z;
  formatter : MessageFormatter
}.
Arguments mk_publisher {T}.
Arguments transport {T}.
Arguments resultQueue {T}.
Arguments running {T}.
Arguments target_mps {T}.
Arguments formatter {T}.

(** [Publisher::Publisher]: a member-initialiser list and an empty body. *)
Definition Publisher_ctor {T} (transport : T) (queue : queue_ref)
    (isRunning : flag_ref) (formatter : MessageFormatter)
    (messages_per_second : Z) : Publisher T :=
  mk_publisher transport queue isRunning messages_per_second formatter.

(** What one pass through the loop body does, as seen from outside. *)
Inductive pub_event :=
| EvNotConnected
| EvSend (message : string) (ok : bool)
| EvSendFailed
| EvSleep (milliseconds : Z)
| EvDivisionByZero.

(** [std::chrono::milliseconds(1000 / target_mps)]: integer division
    truncates toward zero and is undefined for a zero divisor. *)
Definition pace (target_mps : Z) : pub_event :=
  if target_mps =? 0 then EvDivisionByZero
  else EvSleep (Z.quot 1000 target_mps).

Definition is_division_by_zero (e : pub_event) : bool :=
  match e with EvDivisionByZero => true | _ => false end.

Section PublisherCode.
Context `{CxxRuntime} {T : Type} `{Transport T}.

(** The body of [while (resultQueue.pop(result)) { ... }] for one popped
    [result]. *)
Definition Publisher_iteration (this : Publisher T) (result : InferenceResult)
    : IO (list pub_event * Publisher T) :=
  if negb (isConnected (transport this)) then ret ([EvNotConnected], this)
  else
    let message := formatMessage (formatter this) result in
    sent <- send (transport this) message ;;
    let this' := mk_publisher (snd sent) (resultQueue this) (running this)
                              (target_mps this) (formatter this) in
    ret ([EvSend message (fst sent)]
           ++ (if fst sent then [] else [EvSendFailed])
           ++ [pace (target_mps this)], this').

(** [Publisher::operator()] on the results [pop] delivers before it
    reports shutdown.  Execution does not continue past a division by
    zero. *)
Fixpoint Publisher_run (this : Publisher T) (popped : list InferenceResult)
    : IO (list pub_event * Publisher T) :=
  match popped with
  | [] => ret ([], this)
  | result :: popped' =>
      pass <- Publisher_iteration this result ;;
      if existsb is_division_by_zero (fst pass) then ret pass
      else
        later <- Publisher_run (snd pass) popped' ;;
        ret (fst pass ++ fst later, snd later)
  end.
End PublisherCode.

(** ** main.cpp *)

(** The one global [ThreadSafeQueue<InferenceResult> resultQueue(1)] and
    the global [std::atomic<bool> running]. *)
Definition global_resultQueue : queue_ref := 0%nat.
Definition global_running : flag_ref := 0%nat.

(** Resolution of the class filter.  [class_mapping] is what
    [loadCocoClassMapping] read from the labels file; [None] is the
    [return -1] taken when a selection was given but no labels loaded. *)
Definition main_selected_classes (classes_str : string)
    (class_mapping : gmap string Z) : option (list Z) :=
  let parsed :=
    if string_empty classes_str then Some []
    else if bool_decide (class_mapping = ∅) then None
         else Some (parseClassNames classes_str class_mapping) in
  match parsed with
  | None => None
  | Some selected =>
      if Nat.eqb (std_find selected 0) (length selected)
      then Some (selected ++ [0])
      else Some selected
  end.

(** The transports [main] creates, by constructor arguments. *)
Inductive transport_spec :=
| MakeFileTransport (path : string)
| MakeUDPTransport (ip : string) (port : Z).

(** The publishers [main] constructs for an image-file source. *)
Definition main_file_input_publishers (suppress_empty : bool)
    : list (Publisher transport_spec) :=
  let json_formatter := JsonMessageFormatter suppress_empty in
  [ Publisher_ctor (MakeFileTransport "/tmp/results.json")
      global_resultQueue global_running json_formatter 1 ].

(** The publishers [main] constructs for a video-device source; the
    producer [MLInferenceThread] is bound to [global_resultQueue] too. *)
Definition main_video_publishers (suppress_empty : bool)
    : list (Publisher transport_spec) :=
  let json_formatter := JsonMessageFormatter suppress_empty in
  let selective_json_formatter := SelectiveJsonMessageFormatter ∅ in
  let selective_bs_formatter := SelectiveBSMessageFormatter ∅ in
  [ Publisher_ctor (MakeFileTransport "/tmp/results.json")
      global_resultQueue global_running json_formatter 1;
    Publisher_ctor (MakeUDPTransport "127.0.0.1" 5002)
      global_resultQueue global_running selective_json_formatter 1;
    Publisher_ctor (MakeUDPTransport "127.0.0.1" 5000)
      global_resultQueue global_running selective_bs_formatter 1 ].

Definition main_producer_queue : queue_ref := global_resultQueue.

(** ** A runtime to evaluate examples on

    Identity escaping (what [dump] does to a name without quotes,
    backslashes, control characters or non-ASCII bytes), the exact decimal
    expansion of a float, the table's own listing order, and
    [parent_path] as the text before the last slash. *)

Fixpoint last_slash (s : string) : option nat :=
  match s with
  | EmptyString => None
  | String c s' =>
      match last_slash s' with
      | Some i => Some (S i)
      | None => if Ascii.eqb c "/" then Some O else None
      end
  end.

Definition sample_parent_path (p : string) : string :=
  match last_slash p with
  | None => ""
  | Some O => "/"
  | Some i => substring 0 i p
  end.

Fixpoint strip_zeros (fuel : nat) (frac : Z) (digits : nat) : Z * nat :=
  match fuel with
  | O => (frac, digits)
  | S fuel' =>
      match digits with
      | O => (frac, digits)
      | S digits' =>
          if frac mod 10 =? 0 then strip_zeros fuel' (frac / 10) digits'
          else (frac, digits)
      end
  end.

Fixpoint zero_pad (n : nat) (s : string) : string :=
  match n with O => s | S n' => zero_pad n' ("0" +:+ s) end.

Definition sample_float (f : spec_float) : string :=
  match f with
  | S754_zero s => if s then "-0.0" else "0.0"
  | S754_infinity _ | S754_nan => "null"
  | S754_finite s m e =>
      let sign := if s then "-" else "" in
      if 0 <=? e then sign +:+ to_string (Z.pos m * 2 ^ e) +:+ ".0"
      else
        let digits := Z.to_nat (- e) in
        let scaled := Z.pos m * 5 ^ (- e) in
        let whole := scaled / 10 ^ (- e) in
        let '(frac, kept) := strip_zeros digits (scaled mod 10 ^ (- e)) digits in
        let text := to_string frac in
        sign +:+ to_string whole +:+ "." +:+
        (if (kept =? 0)%nat then "0"
         else zero_pad (kept - String.length text) text)
  end.

#[export] Instance sample_runtime : CxxRuntime := {|
  json_escape := id;
  json_float := sample_float;
  unordered_order := λ _ m, map_to_list m;
  unordered_order_perm := λ _ m, reflexivity (map_to_list m);
  parent_path := sample_parent_path
|}.

(** ** The hand-off queue (queue.h is not in the tree) *)

(** Modelled from the spec: the [ThreadSafeQueue] behind [resultQueue],
    whose source is missing.  Section 4.1 describes a single-slot,
    latest-value-wins channel: [push] stores the value, overwriting a
    pending one; [pop] yields the pending value and empties the slot,
    reports closure when the slot is empty and the queue was closed, and
    otherwise has to wait. *)
Record ResultMailbox := mk_mailbox {
  pending : option InferenceResult;
  closed : bool
}.

Inductive pop_outcome :=
| Popped (value : InferenceResult) (after : ResultMailbox)
| Closed
| Waits.

Definition mailbox_push (value : InferenceResult) (mb : ResultMailbox)
    : ResultMailbox :=
  mk_mailbox (Some value) (closed mb).

Definition mailbox_pop (mb : ResultMailbox) : pop_outcome :=
  match pending mb with
  | Some value => Popped value (mk_mailbox None (closed mb))
  | None => if closed mb then Closed else Waits
  end.

(** The queue objects of the process, by address, and a [pop] issued
    through a publisher's [resultQueue] reference. *)
Definition publisher_pop {T} (this : Publisher T)
    (queues : gmap queue_ref ResultMailbox)
    : option (pop_outcome * gmap queue_ref ResultMailbox) :=
  match queues !! resultQueue this with
  | None => None
  | Some mb =>
      match mailbox_pop mb with
      | Popped value after =>
          Some (Popped value after, <[resultQueue this := after]> queues)
      | outcome => Some (outcome, queues)
      end
  end.

(** ** utils.cc: the labels file *)

(** [std::isspace] in the C locale. *)
Definition is_space (c : ascii) : bool :=
  let n := nat_of_ascii c in
  Nat.eqb n 32 || (Nat.leb 9 n && Nat.leb n 13).

(** The [line.erase(std::find_if(line.rbegin(), line.rend(), ...).base(),
    line.end())] of [loadCocoClassMapping]: drops the trailing white
    space. *)
Fixpoint erase_trailing_space (s : string) : string :=
  match s with
  | EmptyString => ""
  | String c s' =>
      match erase_trailing_space s' with
      | EmptyString => if is_space c then "" else String c ""
      | kept => String c kept
      end
  end.

(** The lines successive [std::getline(file, line)] calls yield on a
    file with the given content: a final line needs no newline, and a
    newline at the very end starts no further line. *)
Fixpoint getlines (content : string) : list string :=
  match content with
  | EmptyString => []
  | String c rest =>
      if Ascii.eqb c "010" then "" :: getlines rest
      else match getlines rest with
           | [] => [String c ""]
           | line :: lines => String c line :: lines
           end
  end.

(** The body of the [while (std::getline(file, line))] loop, on the pair
    of the table and the running [class_id]. *)
Definition load_line (acc : gmap string Z * Z) (line : string)
    : gmap string Z * Z :=
  let line := erase_trailing_space line in
  if string_empty line then acc
  else (<[line := snd acc]> (fst acc), snd acc + 1).

(** [loadCocoClassMapping]; [None] is a file that cannot be opened. *)
Definition loadCocoClassMapping (file : option string) : gmap string Z :=
  match file with
  | None => ∅
  | Some content => fst (foldl load_line (∅, 0) (getlines content))
  end.

(** ** main.cpp: the command line *)

(** The [for (int i = 3; i < argc; i++)] loop over the optional flags;
    [None] is the [return -1] on a [--classes] without a value. *)
Fixpoint parse_flags (args : list string) (suppress_empty : bool)
    (classes_str : string) : option (bool * string) :=
  match args with
  | [] => Some (suppress_empty, classes_str)
  | arg :: rest =>
      if String.eqb arg "--suppress-empty"
      then parse_flags rest true classes_str
      else if String.eqb arg "--classes"
      then match rest with
           | value :: rest' => parse_flags rest' suppress_empty value
           | [] => None
           end
      else parse_flags rest suppress_empty classes_str
  end.

(** The start of [main]: fewer than three [argv] entries print the usage
    and return -1. *)
Definition main_parse_args (argv : list string) : option (bool * string) :=
  if (length argv <? 3)%nat then None
  else parse_flags (drop 3 argv) false "".

(** From the command line to the filter handed to the pipeline, given
    the content of the labels file [main] ends up reading. *)
Definition main_filter (argv : list string) (labels_file : option string)
    : option (list Z) :=
  match main_parse_args argv with
  | None => None
  | Some (_, classes_str) =>
      main_selected_classes classes_str (loadCocoClassMapping labels_file)
  end.

(** ** tests/mock_registry.cpp

    The static [std::map<std::string, std::string> mock_registry_data] is
    passed explicitly. *)

Definition mock_registry_set (key value : string)
    (data : gmap string string) : gmap string string :=
  <[key := value]> data.

Definition mock_registry_get (key : string) (data : gmap string string)
    : string :=
  match data !! key with
  | Some value => value
  | None => ""
  end.

Definition mock_registry_clear (data : gmap string string)
    : gmap string string := ∅.

(** [mock_registry_command]: the returned code and, when [strcpy] ran,
    what it wrote into [result]. *)
Definition mock_registry_command (section key : string) (result_size : nat)
    (data : gmap string string) : Z * option string :=
  let full_key := section +:+ "-" +:+ key in
  let value := mock_registry_get full_key data in
  if string_empty value then (-1, None)
  else if (result_size <=? String.length value)%nat then (-1, None)
  else (0, Some value).

(** ** tests: the mock result builder

    [createMockInferenceResult] of the formatter tests.  A default
    constructed [InferenceResult] holds whatever was in memory ([stale],
    the 128 slots of the array); the first [min(size, 100)] slots are
    overwritten and [count] is set to the full size.  [now] is the clock
    reading. *)
Definition createMockInferenceResult (stale : list object_detect_result)
    (now : Z) (dets : list object_detect_result) (selected : list Z)
    : InferenceResult :=
  let copied := Nat.min (length dets) 100 in
  mk_result (mk_list (Z.of_nat (length dets))
                     (take copied dets ++ drop copied stale))
            now selected.

(* ===================================================================== *)
(** * Part II: vocabulary of the properties *)
(* ===================================================================== *)

(** A detection the filtering formatters let through: not rejected by the
    validity test and of a selected class. *)
Definition passes (result : InferenceResult) (d : object_detect_result) : bool :=
  negb (is_invalid d) && isClassSelected (cls_id d) (selected_classes result).

Definition selected_valid (result : InferenceResult) : list object_detect_result :=
  List.filter (passes result) (visited (detections result)).

(** The same result with every invalid detection removed from the array. *)
Definition discard_invalid (result : InferenceResult) : InferenceResult :=
  let kept := List.filter (λ d, negb (is_invalid d)) (visited (detections result)) in
  mk_result (mk_list (Z.of_nat (length kept)) kept)
            (timestamp result) (selected_classes result).

(** The count table after [operator[]]-incrementing the given names. *)
Definition count_names (names : list string) : list string * gmap string Z :=
  foldl (λ (acc : list string * gmap string Z) n,
           (fst acc ++ [n], count_incr n (snd acc)))
        (["person"], person_floor) names.

Definition occurrences (k : string) (names : list string) : Z :=
  Z.of_nat (length (List.filter (String.eqb k) names)).

(** One [name:count] field of a BrightScript message. *)
Definition bs_field (entry : string * Z) : string :=
  fst entry +:+ ":" +:+ to_string (snd entry).

Definition timestamp_field (result : InferenceResult) : string :=
  "timestamp:" +:+ to_string (to_time_t (timestamp result)).

(** The [send] calls among the events of a publisher. *)
Definition is_send (e : pub_event) : bool :=
  match e with EvSend _ _ => true | _ => false end.

(** What one token contributes to the selection. *)
Definition token_ids (class_mapping : gmap string Z) (tok : string) : list Z :=
  match erase_trailing (erase_leading tok) with
  | EmptyString => []
  | String c s =>
      match class_mapping !! String c s with
      | Some id => [id]
      | None => []
      end
  end.

(** Strings made of blanks only, and strings without a comma. *)
Fixpoint all_blank (s : string) : bool :=
  match s with
  | EmptyString => true
  | String c s' => is_blank c && all_blank s'
  end.

Fixpoint comma_free (s : string) : bool :=
  match s with
  | EmptyString => true
  | String c s' => negb (Ascii.eqb c ",") && comma_free s'
  end.

(** The labels of a labels file: its lines without their trailing white
    space, blank lines left out. *)
Definition file_labels (content : string) : list string :=
  List.filter (λ line, negb (string_empty line))
              (map erase_trailing_space (getlines content)).

(** The same result under another class filter. *)
Definition with_filter (result : InferenceResult) (selected : list Z)
    : InferenceResult :=
  mk_result (detections result) (timestamp result) selected.

(** The sum of the counts of a list of table entries. *)
Definition total_count (entries : list (string * Z)) : Z :=
  foldr (λ entry acc, snd entry + acc) 0 entries.

(** The path [send] writes to before renaming. *)
Definition temp_path (this : FileTransport) : string :=
  filepath this +:+ ".tmp".

(** The file-system calls [send] may issue for given data. *)
Definition send_calls (this : FileTransport) (data : string) : list io_call :=
  [IoOpenTrunc (temp_path this); IoWriteFlush (temp_path this) data;
   IoOpenRead (temp_path this); IoFsync (temp_path this);
   IoRename (temp_path this) (filepath this); IoRemove (temp_path this)].

(** The messages handed to [send], and the sleeps, among a publisher's
    events. *)
Definition sent_messages (events : list pub_event) : list string :=
  omap (λ e, match e with EvSend message _ => Some message | _ => None end)
       events.

Definition sleeps (events : list pub_event) : list Z :=
  omap (λ e, match e with EvSleep ms => Some ms | _ => None end) events.

(* ===================================================================== *)
(** * Part III: properties *)
(* ===================================================================== *)

(** ** Class filter *)

Lemma std_find_le (v : list Z) (x : Z) : (std_find v x ≤ length v)%nat.
Proof.
  induction v as [|y v IH]; simpl; [lia|].
  destruct (Z.eqb y x); lia.
Qed.

Lemma std_find_end (v : list Z) (x : Z) :
  std_find v x = length v ↔ x ∉ v.
Proof.
  induction v as [|y v IH]; simpl.
  - split; [intros _; apply not_elem_of_nil | done].
  - destruct (Z.eqb_spec y x) as [->|Hne].
    + split; [discriminate | intros Hx; exfalso; apply Hx; left].
    + rewrite not_elem_of_cons. split.
      * intros Heq. split; [congruence|]. apply IH. lia.
      * intros [_ Hx]. f_equal. by apply IH.
Qed.

Lemma isClassSelected_cons (id c : Z) (filter : list Z) :
  isClassSelected id (c :: filter) = true ↔ id ∈ c :: filter.
Proof.
  unfold isClassSelected. cbn [vector_empty].
  rewrite negb_true_iff, Nat.eqb_neq, std_find_end.
  split; [|tauto].
  intros Hnn. destruct (decide (id ∈ c :: filter)); tauto.
Qed.

(** C5. [isClassSelected] selects every id under the empty filter, and
    under a non-empty filter selects exactly the ids that occur in it. *)
Theorem isClassSelected_spec (id : Z) :
  isClassSelected id [] = true ∧
  ∀ (c : Z) (filter : list Z),
    isClassSelected id (c :: filter) = true ↔ id ∈ c :: filter.
Proof.
  split; [reflexivity|]. intros c filter.
  unfold isClassSelected. cbn [vector_empty].
  rewrite negb_true_iff, Nat.eqb_neq, std_find_end.
  destruct (decide (id ∈ c :: filter)); tauto.
Qed.

Lemma isClassSelected_nonempty (id : Z) (filter : list Z) :
  filter ≠ [] → (isClassSelected id filter = true ↔ id ∈ filter).
Proof.
  destruct filter as [|c filter]; [done|]. intros _.
  apply isClassSelected_cons.
Qed.

(** The assertions of the class-parsing tests. *)
Example isClassSelected_tests :
  map (λ id, isClassSelected id [0; 2; 16]) [0; 2; 16; 1; 3]
  = [true; true; true; false; false] ∧
  map (λ id, isClassSelected id []) [0; 5; 79] = [true; true; true].
Proof. split; reflexivity. Qed.

Example parseClassNames_tests :
  let labels : gmap string Z :=
    {[ "person" := 0; "bicycle" := 1; "car" := 2; "dog" := 16 ]} in
  parseClassNames "person" labels = [0] ∧
  parseClassNames "person,car,dog" labels = [0; 2; 16] ∧
  parseClassNames "person, car , dog" labels = [0; 2; 16] ∧
  parseClassNames "" labels = [] ∧
  parseClassNames "person,invalid_class,car" labels = [0; 2].
Proof. cbn zeta. repeat apply conj; reflexivity. Qed.

Lemma take_until_comma_length (s : string) :
  (String.length (snd (take_until_comma s)) ≤ String.length s)%nat.
Proof.
  induction s as [|c s IH]; cbn; [lia|].
  destruct (Ascii.eqb c ","); cbn; [lia|].
  destruct (take_until_comma s) as [tok rest]. cbn in *. lia.
Qed.

(** The loop of [parseClassNames] terminates within the fuel it is given:
    any larger fuel yields the same selection. *)
Lemma parse_loop_fuel (class_mapping : gmap string Z) (fuel fuel' : nat) :
  ∀ (stream : string) (selected : list Z),
    (String.length stream < fuel)%nat → (String.length stream < fuel')%nat →
    parse_loop fuel stream class_mapping selected
    = parse_loop fuel' stream class_mapping selected.
Proof.
  revert fuel'. induction fuel as [|fuel IH]; intros fuel' stream selected Hf Hf';
    [lia|].
  destruct fuel' as [|fuel']; [lia|].
  destruct stream as [|c stream]; [reflexivity|].
  cbn [parse_loop getline].
  pose proof (take_until_comma_length (String c stream)) as Hlen.
  destruct (take_until_comma (String c stream)) as [tok rest] eqn:Htake.
  assert (Hrest : (String.length rest ≤ String.length stream)%nat).
  { cbn in Htake. destruct (Ascii.eqb c ",").
    - injection Htake as <- <-. lia.
    - pose proof (take_until_comma_length stream) as Hs.
      destruct (take_until_comma stream) as [tok' rest'].
      injection Htake as <- <-. exact Hs. }
  cbn in Hf, Hf'. apply IH; lia.
Qed.

(** C9. Whatever selection string and label table [main] is given, the
    filter it hands to the pipeline contains class 0: it is the parsed
    selection itself when that already holds 0 and the parsed selection
    with 0 appended otherwise.  The only configuration that hands over no
    filter is the early exit on a selection with no labels loaded. *)
Theorem main_filter_contains_class0 (classes_str : string)
    (class_mapping : gmap string Z) :
  match main_selected_classes classes_str class_mapping with
  | Some selected =>
      0 ∈ selected ∧
      selected =
        (if bool_decide (0 ∈ parseClassNames classes_str class_mapping)
         then parseClassNames classes_str class_mapping
         else parseClassNames classes_str class_mapping ++ [0])
  | None => classes_str ≠ "" ∧ class_mapping = ∅
  end.
Proof.
  unfold main_selected_classes.
  assert (Hens : ∀ parsed : list Z,
    let selected := if Nat.eqb (std_find parsed 0) (length parsed)
                    then parsed ++ [0] else parsed in
    0 ∈ selected ∧
    selected = if bool_decide (0 ∈ parsed) then parsed else parsed ++ [0]).
  { intros parsed. cbn zeta.
    destruct (Nat.eqb_spec (std_find parsed 0) (length parsed)) as [He|Hne].
    - apply std_find_end in He. rewrite bool_decide_eq_false_2 by done.
      split; [|done]. apply elem_of_app. right. left.
    - assert (0 ∈ parsed).
      { destruct (decide (0 ∈ parsed)); [done|].
        exfalso. apply Hne. by apply std_find_end. }
      by rewrite bool_decide_eq_true_2. }
  destruct classes_str as [|c rest].
  - cbn [string_empty parseClassNames]. apply (Hens []).
  - cbn [string_empty]. case_bool_decide as Hm.
    + split; [discriminate | done].
    + specialize (Hens (parseClassNames (String c rest) class_mapping)).
      cbn zeta in Hens.
      by destruct (Nat.eqb _ _).
Qed.

(** ** File transport *)

Lemma FileTransport_send_disabled (this : FileTransport) (data : string)
    (w : World) :
  enabled this = false → FileTransport_send this data w = ((false, this), w).
Proof. intros Hoff. unfold FileTransport_send. by rewrite Hoff. Qed.

Lemma file_run_disabled (this : FileTransport) (ops : list file_op) (w : World) :
  enabled this = false →
  file_run this ops w = ((replicate (length ops) false, this), w).
Proof.
  intros Hoff. induction ops as [|op ops IH]; [reflexivity|].
  cbn [file_run length replicate]. unfold bind at 1.
  assert (Hstep : file_step this op w = ((false, this), w)).
  { destruct op as [data|]; cbn [file_step].
    - by apply FileTransport_send_disabled.
    - unfold ret, FileTransport_isConnected. by rewrite Hoff. }
  rewrite Hstep. cbn [fst snd]. unfold bind. rewrite IH. reflexivity.
Qed.

(** C8. When the parent directory of the target is missing and cannot be
    created, the constructed transport reports not connected, and whatever
    members are called on it afterwards, in whatever state of the world,
    every call returns false, the object stays as it is and the world is
    left untouched: no file-system call is issued. *)
Theorem FileTransport_disabled_forever `{CxxRuntime} (path : string) (w : World) :
  string_empty (parent_path path) = false →
  respond w (log w) (IoExists (parent_path path)) = false →
  respond w (log w ++ [IoExists (parent_path path)])
            (IoCreateDirectories (parent_path path)) = false →
  let this := fst (FileTransport_ctor path w) in
  isConnected this = false ∧
  ∀ (ops : list file_op) (w' : World),
    file_run this ops w' = ((replicate (length ops) false, this), w').
Proof.
  intros Hdir Hmissing Hcreate. cbn zeta.
  assert (Hoff : enabled (fst (FileTransport_ctor path w)) = false).
  { unfold FileTransport_ctor. rewrite Hdir.
    unfold bind, call, ret. cbn [respond log].
    rewrite Hmissing. cbn [respond log]. rewrite Hcreate. reflexivity. }
  split; [exact Hoff|].
  intros ops w'. by apply file_run_disabled.
Qed.

Lemma FileTransport_disabled_forever_witness :
  let this := fst (FileTransport_ctor "/media/absent/results.json"
                     (mk_world (λ _ _, false) [])) in
  isConnected this = false ∧
  ∀ (ops : list file_op) (w' : World),
    file_run this ops w' = ((replicate (length ops) false, this), w').
Proof.
  apply (FileTransport_disabled_forever (H := sample_runtime)
           "/media/absent/results.json" (mk_world (λ _ _, false) []));
    reflexivity.
Defined.

(** An enabled transport, by contrast, does reach the file system. *)
Example FileTransport_send_enabled :
  FileTransport_send (mk_file_transport "/tmp/results.json" true) "{}"
                     (mk_world (λ _ _, true) [])
  = ((true, mk_file_transport "/tmp/results.json" true),
     mk_world (λ _ _, true)
       [IoOpenTrunc "/tmp/results.json.tmp";
        IoWriteFlush "/tmp/results.json.tmp" "{}";
        IoOpenRead "/tmp/results.json.tmp";
        IoFsync "/tmp/results.json.tmp";
        IoRename "/tmp/results.json.tmp" "/tmp/results.json"]).
Proof. reflexivity. Qed.

(** ** Publisher *)

(** C2, as the code has it.  In every pass through the loop body the
    publisher leaves [send] uncalled only when the transport reports not
    connected; on a connected transport it calls [send] exactly once, with
    whatever the formatter returned, the empty string included. *)
Theorem Publisher_iteration_sends `{CxxRuntime} {T : Type} `{Transport T}
    (this : Publisher T) (result : InferenceResult) (w : World) :
  let events := fst (fst (Publisher_iteration this result w)) in
  let message := formatMessage (formatter this) result in
  if isConnected (transport this)
  then List.filter is_send events
       = [EvSend message (fst (fst (send (transport this) message w)))]
  else events = [EvNotConnected] ∧ snd (Publisher_iteration this result w) = w.
Proof.
  cbn zeta. unfold Publisher_iteration.
  destruct (isConnected (transport this)); cbn [negb].
  - unfold bind, ret.
    destruct (send (transport this) (formatMessage (formatter this) result) w)
      as [[ok transport'] w'].
    cbn [fst snd]. destruct ok; unfold pace;
      destruct (target_mps this =? 0); reflexivity.
  - split; reflexivity.
Qed.

(** C2, the counterexample: a suppress-empty FullJson formatter returns
    the empty string for a result whose only detection is invalid, and the
    publisher passes that empty string to [send], which goes on to replace
    the target file. *)
Lemma Publisher_sends_empty_message :
  let this := Publisher_ctor (mk_file_transport "/tmp/results.json" true)
                global_resultQueue global_running
                (FullJsonMessageFormatter true) 1 in
  let result :=
    mk_result (mk_list 1 [mk_det (mk_box 0 0 1 1) (S754_zero false) 0 "person"])
              0 [0] in
  let after := Publisher_iteration this result (mk_world (λ _ _, true) []) in
  selected_valid result = [] ∧
  formatMessage (formatter this) result = "" ∧
  fst (fst after) = [EvSend "" true; EvSleep 1000] ∧
  log (snd after) =
    [IoOpenTrunc "/tmp/results.json.tmp";
     IoWriteFlush "/tmp/results.json.tmp" "";
     IoOpenRead "/tmp/results.json.tmp";
     IoFsync "/tmp/results.json.tmp";
     IoRename "/tmp/results.json.tmp" "/tmp/results.json"].
Proof. cbn zeta. repeat split; reflexivity. Qed.

(** C4, as the code has it.  The constructor performs no check: whatever
    rate it is given becomes [target_mps].  The publishers that [main]
    puts into operation are all constructed with the literal rate 1, so
    each of them paces its loop by 1000 ms. *)
Theorem Publisher_rate_unchecked :
  (∀ (T : Type) (tr : T) (queue : queue_ref) (isRunning : flag_ref)
     (fm : MessageFormatter) (messages_per_second : Z),
     target_mps (Publisher_ctor tr queue isRunning fm messages_per_second)
     = messages_per_second) ∧
  (∀ suppress_empty : bool,
     Forall (λ p, target_mps p = 1 ∧ pace (target_mps p) = EvSleep 1000)
            (main_file_input_publishers suppress_empty
             ++ main_video_publishers suppress_empty)).
Proof.
  split; [reflexivity|].
  intros suppress_empty. repeat constructor.
Qed.

(** C4, the counterexample: construction with rate 0 succeeds, the
    resulting publisher holds [target_mps = 0], and its first pass over a
    result sends the message and then divides by zero. *)
Lemma Publisher_ctor_accepts_zero_rate :
  let this := Publisher_ctor (mk_file_transport "/tmp/results.json" true)
                global_resultQueue global_running
                (JsonMessageFormatter false) 0 in
  let result := mk_result (mk_list 0 []) 0 [0] in
  target_mps this = 0 ∧
  ¬ (0 < target_mps this) ∧
  fst (fst (Publisher_run this [result; result] (mk_world (λ _ _, true) [])))
  = [EvSend (formatMessage (JsonMessageFormatter false) result) true;
     EvDivisionByZero].
Proof. cbn zeta. repeat split. cbn. lia. Qed.

(** A negative rate is stored just the same and yields a negative sleep. *)
Example Publisher_negative_rate :
  pace (target_mps (Publisher_ctor (MakeUDPTransport "127.0.0.1" 5000)
                      global_resultQueue global_running
                      BSVariableMessageFormatter (-3))) = EvSleep (-333).
Proof. reflexivity. Qed.

(** ** Wiring of the queue *)

Lemma main_wiring_single_queue_aux (suppress_empty : bool) :
  Forall (λ p : Publisher transport_spec, resultQueue p = global_resultQueue)
         (main_video_publishers suppress_empty).
Proof. repeat constructor. Qed.

(** C3, as the code has it.  Every publisher [main] constructs, in either
    mode, is bound to the one global [resultQueue], and so is the
    producer: in video mode that single queue has three readers. *)
Theorem main_wiring_single_queue (suppress_empty : bool) :
  Forall (λ p, resultQueue p = global_resultQueue)
         (main_file_input_publishers suppress_empty
          ++ main_video_publishers suppress_empty) ∧
  main_producer_queue = global_resultQueue ∧
  length (main_file_input_publishers suppress_empty) = 1%nat ∧
  length (main_video_publishers suppress_empty) = 3%nat.
Proof. repeat split; repeat constructor. Qed.

(** C3, the counterexample: the file publisher and the first UDP publisher
    of video mode are different publishers reading the same queue. *)
Lemma main_publishers_share_queue :
  ∃ p q : Publisher transport_spec,
    main_video_publishers false !! 0%nat = Some p ∧
    main_video_publishers false !! 1%nat = Some q ∧
    p ≠ q ∧
    resultQueue p = resultQueue q.
Proof.
  eexists _, _. repeat split; try reflexivity. discriminate.
Qed.

(** With the hand-off channel behaving as the design describes it, sharing
    is competition: once one publisher of video mode has popped a pushed
    result, another finds the slot empty and waits. *)
Lemma shared_queue_is_competitive (value : InferenceResult)
    (p q : Publisher transport_spec) (suppress_empty : bool) :
  p ∈ main_video_publishers suppress_empty →
  q ∈ main_video_publishers suppress_empty →
  let queues : gmap queue_ref ResultMailbox :=
    {[ global_resultQueue := mailbox_push value (mk_mailbox None false) ]} in
  ∃ queues',
    publisher_pop p queues = Some (Popped value (mk_mailbox None false), queues') ∧
    publisher_pop q queues' = Some (Waits, queues').
Proof.
  intros Hp Hq queues.
  assert (Hbound : ∀ x, x ∈ main_video_publishers suppress_empty →
                        resultQueue x = global_resultQueue).
  { intros x Hx.
    pose proof (main_wiring_single_queue_aux suppress_empty) as Hall.
    rewrite Forall_forall in Hall. by apply Hall. }
  exists (<[global_resultQueue := mk_mailbox None false]> queues).
  unfold publisher_pop. rewrite (Hbound p Hp), (Hbound q Hq).
  subst queues. rewrite lookup_singleton_eq. cbn.
  rewrite lookup_insert_eq. cbn. done.
Qed.

(** ** Formatters: which detections are read *)

Lemma foldl_keep {A B : Type} (step : list B → A → list B)
    (keep : A → bool) (f : A → B) :
  (∀ acc x, step acc x = if keep x then acc ++ [f x] else acc) →
  ∀ l acc, foldl step acc l = acc ++ map f (List.filter keep l).
Proof.
  intros Hstep l. induction l as [|x l IH]; intros acc; cbn.
  - by rewrite app_nil_r.
  - rewrite IH, Hstep. destruct (keep x); cbn; [|done].
    by rewrite <- app_assoc.
Qed.

Lemma foldl_count_keep {A : Type}
    (step : list string * gmap string Z → A → list string * gmap string Z)
    (keep : A → bool) (f : A → string) :
  (∀ acc x, step acc x =
            if keep x then (fst acc ++ [f x], count_incr (f x) (snd acc)) else acc) →
  ∀ l acc,
    foldl step acc l
    = foldl (λ acc n, (fst acc ++ [n], count_incr n (snd acc)))
            acc (map f (List.filter keep l)).
Proof.
  intros Hstep l. induction l as [|x l IH]; intros acc; cbn; [done|].
  rewrite IH, Hstep. by destruct (keep x).
Qed.

Lemma extractSelectedClasses_filter (r : InferenceResult) :
  extractSelectedClasses r = selected_valid r.
Proof.
  unfold extractSelectedClasses, selected_valid.
  rewrite (foldl_keep _ (passes r) id).
  - by rewrite map_id.
  - intros acc d. unfold passes, id.
    destruct (is_invalid d); [done|]. by destruct (isClassSelected _ _).
Qed.

Lemma Json_class_counts_filter (r : InferenceResult) :
  Json_class_counts r = count_names (map name (selected_valid r)).
Proof.
  unfold Json_class_counts, selected_valid, count_names.
  apply (foldl_count_keep _ (passes r) name).
  intros [keys counts] d. unfold passes. cbn [fst snd].
  destruct (is_invalid d); [done|]. by destruct (isClassSelected _ _).
Qed.

Lemma Selective_class_counts_filter (cm : gmap string string)
    (r : InferenceResult) :
  Selective_class_counts cm r
  = count_names (map (λ d, mapClassName cm (name d)) (selected_valid r)).
Proof.
  unfold Selective_class_counts, count_names.
  rewrite extractSelectedClasses_filter.
  rewrite (foldl_count_keep _ (λ _, true) (λ d, mapClassName cm (name d))).
  - f_equal. f_equal. induction (selected_valid r) as [|d l IH]; cbn; congruence.
  - by intros [keys counts] d.
Qed.

Lemma FullJson_detections_filter (r : InferenceResult) :
  FullJson_detections r = map detection_json (selected_valid r).
Proof.
  unfold FullJson_detections, selected_valid.
  rewrite (foldl_keep _ (passes r) detection_json); [done|].
  intros acc d. unfold passes.
  destruct (is_invalid d); [done|]. by destruct (isClassSelected _ _).
Qed.

Lemma people_count_filter (r : InferenceResult) :
  people_count r
  = Z.of_nat (length (List.filter (λ d, cls_id d =? 0) (visited (detections r)))).
Proof.
  unfold people_count.
  assert (Hgen : ∀ l n,
    foldl (λ n d, if cls_id d =? 0 then n + 1 else n) n l
    = n + Z.of_nat (length (List.filter (λ d, cls_id d =? 0) l))).
  { induction l as [|d l IH]; intros n; cbn; [lia|].
    rewrite IH. destruct (cls_id d =? 0); cbn [length]; lia. }
  by rewrite Hgen.
Qed.

Lemma visited_length (l : object_detect_result_list) :
  (length (visited l) ≤ OBJ_NUMB_MAX_SIZE)%nat.
Proof.
  unfold visited. rewrite !length_take. lia.
Qed.

Lemma filter_length_le {A : Type} (p : A → bool) (l : list A) :
  (length (List.filter p l) ≤ length l)%nat.
Proof.
  induction l as [|x l IH]; cbn; [lia|]. destruct (p x); cbn; lia.
Qed.

Lemma filter_filter_implied {A : Type} (p q : A → bool) (l : list A) :
  (∀ x, p x = true → q x = true) →
  List.filter p (List.filter q l) = List.filter p l.
Proof.
  intros Himp. induction l as [|x l IH]; cbn; [done|].
  destruct (q x) eqn:Hq; cbn.
  - by rewrite IH.
  - destruct (p x) eqn:Hp; [|done]. apply Himp in Hp. congruence.
Qed.

Lemma visited_discard_invalid (r : InferenceResult) :
  visited (detections (discard_invalid r))
  = List.filter (λ d, negb (is_invalid d)) (visited (detections r)).
Proof.
  unfold discard_invalid. cbn [detections].
  set (kept := List.filter _ _).
  unfold visited at 1. cbn [count results]. rewrite Nat2Z.id.
  assert (Hlen : (length kept ≤ OBJ_NUMB_MAX_SIZE)%nat).
  { subst kept. etrans; [apply filter_length_le | apply visited_length]. }
  rewrite (take_ge kept OBJ_NUMB_MAX_SIZE) by done.
  by apply take_ge.
Qed.

Lemma selected_valid_discard_invalid (r : InferenceResult) :
  selected_valid (discard_invalid r) = selected_valid r.
Proof.
  unfold selected_valid at 1. rewrite visited_discard_invalid.
  change (passes (discard_invalid r)) with (passes r).
  apply filter_filter_implied. intros d. unfold passes.
  by intros [? _]%andb_true_iff.
Qed.

(** C1, as the code has it.  The Json, SelectiveJson, SelectiveBS and
    FullJson formatters produce the same string whether or not the
    detections with [prop <= 0] or [cls_id < 0] are removed beforehand.
    The BSVariable formatter prints the raw [count] field, and the two
    Faces formatters count every visited detection of class 0 whatever
    its confidence. *)
Theorem filtering_formatters_ignore_invalid `{CxxRuntime} (r : InferenceResult) :
  (∀ se, formatMessage (JsonMessageFormatter se) (discard_invalid r)
         = formatMessage (JsonMessageFormatter se) r) ∧
  (∀ cm, formatMessage (SelectiveJsonMessageFormatter cm) (discard_invalid r)
         = formatMessage (SelectiveJsonMessageFormatter cm) r) ∧
  (∀ cm, formatMessage (SelectiveBSMessageFormatter cm) (discard_invalid r)
         = formatMessage (SelectiveBSMessageFormatter cm) r) ∧
  (∀ se, formatMessage (FullJsonMessageFormatter se) (discard_invalid r)
         = formatMessage (FullJsonMessageFormatter se) r) ∧
  formatMessage BSVariableMessageFormatter r
  = "detection_count:" +:+ to_string (count (detections r)) +:+ "!!" +:+
    timestamp_field r ∧
  people_count r
  = Z.of_nat (length (List.filter (λ d, cls_id d =? 0) (visited (detections r)))).
Proof.
  repeat apply conj.
  - intros se. cbn [formatMessage].
    unfold JsonMessageFormatter_formatMessage, JsonMessageFormatter_json.
    by rewrite !Json_class_counts_filter, selected_valid_discard_invalid.
  - intros cm. cbn [formatMessage].
    unfold SelectiveJsonMessageFormatter_formatMessage,
      SelectiveJsonMessageFormatter_json.
    by rewrite !Selective_class_counts_filter, selected_valid_discard_invalid.
  - intros cm. cbn [formatMessage].
    unfold SelectiveBSMessageFormatter_formatMessage.
    by rewrite !Selective_class_counts_filter, selected_valid_discard_invalid.
  - intros se. cbn [formatMessage].
    unfold FullJsonMessageFormatter_formatMessage, FullJsonMessageFormatter_json.
    by rewrite !FullJson_detections_filter, selected_valid_discard_invalid.
  - reflexivity.
  - apply people_count_filter.
Qed.

(** C1, the counterexample: a single detection of class 0 with confidence
    0 is invalid, yet BSVariable reports a detection count of 1 and both
    Faces formatters report one face; with the detection removed they
    report 0. *)
Lemma formatters_count_invalid_detection :
  let d := mk_det (mk_box 10 10 50 50) (S754_zero false) 0 "person" in
  let r := mk_result (mk_list 1 [d]) 0 [] in
  is_invalid d = true ∧
  formatMessage BSVariableMessageFormatter r = "detection_count:1!!timestamp:0" ∧
  formatMessage BSVariableMessageFormatter (discard_invalid r)
  = "detection_count:0!!timestamp:0" ∧
  formatMessage FacesBSMessageFormatter r
  = "faces_in_frame_total:1!!faces_attending:1!!timestamp:0" ∧
  formatMessage FacesBSMessageFormatter (discard_invalid r)
  = "faces_in_frame_total:0!!faces_attending:0!!timestamp:0" ∧
  FacesJsonMessageFormatter_json r
  = [("faces_attending", JInt 1); ("faces_in_frame_total", JInt 1);
     ("timestamp", JInt 0)] ∧
  FacesJsonMessageFormatter_json (discard_invalid r)
  = [("faces_attending", JInt 0); ("faces_in_frame_total", JInt 0);
     ("timestamp", JInt 0)].
Proof. cbn zeta. repeat apply conj; reflexivity. Qed.

(** ** JSON objects *)

Lemma ascii_compare_refl (a : ascii) : Ascii.compare a a = Eq.
Proof.
  pose proof (Ascii.compare_antisym a a) as Hanti.
  destruct (Ascii.compare a a); cbn in Hanti; congruence.
Qed.

Lemma string_compare_refl (s : string) : String.compare s s = Eq.
Proof.
  induction s as [|a s IH]; cbn; [done|].
  by rewrite ascii_compare_refl.
Qed.

Lemma obj_get_set_eq (k : string) (v : json) (j : list (string * json)) :
  obj_get k (obj_set k v j) = Some v.
Proof.
  induction j as [|[k' w] j IH]; cbn.
  - by rewrite String.eqb_refl.
  - destruct (String.compare k k') eqn:Hcmp; cbn.
    + by rewrite String.eqb_refl.
    + by rewrite String.eqb_refl.
    + destruct (String.eqb_spec k k') as [->|_]; [|done].
      by rewrite string_compare_refl in Hcmp.
Qed.

Lemma obj_get_set_ne (k k' : string) (v : json) (j : list (string * json)) :
  k ≠ k' → obj_get k (obj_set k' v j) = obj_get k j.
Proof.
  intros Hne. induction j as [|[k0 w] j IH]; cbn.
  - by apply String.eqb_neq in Hne as ->.
  - destruct (String.compare k' k0) eqn:Hcmp; cbn.
    + apply String.compare_eq_iff in Hcmp as <-.
      by apply String.eqb_neq in Hne as ->.
    + by apply String.eqb_neq in Hne as ->.
    + by rewrite IH.
Qed.

Lemma obj_get_set_is_Some (k k' : string) (v : json) (j : list (string * json)) :
  is_Some (obj_get k j) → is_Some (obj_get k (obj_set k' v j)).
Proof.
  intros Hsome. destruct (decide (k = k')) as [->|Hne].
  - rewrite obj_get_set_eq. by eexists.
  - by rewrite obj_get_set_ne.
Qed.

Lemma dump_object_nonempty `{CxxRuntime} (members : list (string * json)) :
  dump (JObject members) ≠ "".
Proof. cbn [dump]. discriminate. Qed.

(** C7. With [suppress_empty] set, the FullJson formatter returns the
    empty string exactly when no visited detection is valid and selected;
    otherwise it returns the dump of an object holding the timestamp, the
    number of such detections and one entry per such detection, each with
    its class id, class name, confidence and bounding box. *)
Theorem FullJson_suppress_empty `{CxxRuntime} (r : InferenceResult) :
  (formatMessage (FullJsonMessageFormatter true) r = "" ↔ selected_valid r = []) ∧
  formatMessage (FullJsonMessageFormatter true) r
  = (if vector_empty (selected_valid r) then ""
     else dump (JObject
            [("detection_count", JInt (Z.of_nat (length (selected_valid r))));
             ("detections", JArray (map detection_json (selected_valid r)));
             ("timestamp", JInt (to_time_t (timestamp r)))])) ∧
  ∀ d, detection_json d
       = JObject
           [("bbox", JObject [("bottom", JInt (bottom (box d)));
                              ("left", JInt (left (box d)));
                              ("right", JInt (right (box d)));
                              ("top", JInt (top (box d)))]);
            ("class_id", JInt (cls_id d));
            ("class_name", JString (name d));
            ("confidence", JFloat (prop d))].
Proof.
  assert (Heq : formatMessage (FullJsonMessageFormatter true) r
    = (if vector_empty (selected_valid r) then ""
       else dump (JObject
              [("detection_count", JInt (Z.of_nat (length (selected_valid r))));
               ("detections", JArray (map detection_json (selected_valid r)));
               ("timestamp", JInt (to_time_t (timestamp r)))]))).
  { cbn [formatMessage].
    unfold FullJsonMessageFormatter_formatMessage, FullJsonMessageFormatter_json.
    rewrite FullJson_detections_filter, length_map. cbn [andb].
    destruct (selected_valid r) as [|d l]; reflexivity. }
  split; [|split; [exact Heq | reflexivity]].
  rewrite Heq. destruct (selected_valid r) as [|d l]; cbn [vector_empty].
  - done.
  - split; [|discriminate]. intros Hempty.
    by apply dump_object_nonempty in Hempty.
Qed.

(** Without [suppress_empty] the same formatter always dumps the object. *)
Lemma FullJson_no_suppress `{CxxRuntime} (r : InferenceResult) :
  formatMessage (FullJsonMessageFormatter false) r ≠ "".
Proof. apply dump_object_nonempty. Qed.

(** On confidences that are numbers, the validity test of the code is the
    design's "confidence above zero and class id not negative". *)
Lemma is_invalid_spec (d : object_detect_result) :
  prop d ≠ S754_nan →
  is_invalid d = false ↔ SFltb (S754_zero false) (prop d) = true ∧ 0 ≤ cls_id d.
Proof.
  intros Hnum. unfold is_invalid. rewrite orb_false_iff, Z.ltb_ge.
  assert (SFleb (prop d) (S754_zero false) = false
          ↔ SFltb (S754_zero false) (prop d) = true); [|tauto].
  unfold SFleb, SFltb.
  destruct (prop d) as [s|s| |s m e]; try done; destruct s; done.
Qed.

(** ** The count table *)

Lemma count_names_snoc (names : list string) (n : string) :
  count_names (names ++ [n])
  = (fst (count_names names) ++ [n], count_incr n (snd (count_names names))).
Proof. unfold count_names. by rewrite foldl_snoc. Qed.

Lemma occurrences_snoc (k n : string) (names : list string) :
  occurrences k (names ++ [n])
  = occurrences k names + (if String.eqb k n then 1 else 0).
Proof.
  unfold occurrences. rewrite List.filter_app, length_app. cbn.
  destruct (String.eqb k n); cbn; lia.
Qed.

Lemma count_names_total (names : list string) (k : string) :
  default 0 (snd (count_names names) !! k) = occurrences k names.
Proof.
  induction names as [|n names IH] using rev_ind.
  - cbn. unfold person_floor.
    destruct (decide (k = "person")) as [->|Hne].
    + by rewrite lookup_singleton_eq.
    + by rewrite lookup_singleton_ne.
  - rewrite count_names_snoc, occurrences_snoc. cbn [snd]. unfold count_incr.
    destruct (String.eqb_spec k n) as [->|Hne].
    + rewrite lookup_insert_eq. cbn. by rewrite IH.
    + rewrite lookup_insert_ne by done. rewrite IH. lia.
Qed.

Lemma count_names_person (names : list string) :
  snd (count_names names) !! "person" = Some (occurrences "person" names).
Proof.
  assert (Hsome : is_Some (snd (count_names names) !! "person")).
  { induction names as [|n names IH] using rev_ind.
    - cbn. unfold person_floor. rewrite lookup_singleton_eq. by eexists.
    - rewrite count_names_snoc. cbn [snd]. unfold count_incr.
      destruct (decide (n = "person")) as [->|Hne].
      + rewrite lookup_insert_eq. by eexists.
      + by rewrite lookup_insert_ne. }
  destruct Hsome as [c Hc].
  pose proof (count_names_total names "person") as Htot.
  rewrite Hc in Htot. cbn in Htot. by rewrite Hc, Htot.
Qed.

(** No counter leaves the range of an [int]: it is bounded by the number
    of names counted, hence by the capacity of the detection array. *)
Lemma count_names_bounded (names : list string) (k : string) (c : Z) :
  snd (count_names names) !! k = Some c → 0 ≤ c ≤ Z.of_nat (length names).
Proof.
  intros Hc. pose proof (count_names_total names k) as Htot.
  rewrite Hc in Htot. cbn in Htot. subst c. unfold occurrences.
  pose proof (filter_length_le (String.eqb k) names). lia.
Qed.

Lemma selected_valid_length (r : InferenceResult) :
  (length (selected_valid r) ≤ OBJ_NUMB_MAX_SIZE)%nat.
Proof.
  unfold selected_valid. etrans; [apply filter_length_le | apply visited_length].
Qed.

Section Iteration.
Context `{CxxRuntime}.

Lemma unordered_order_elem (keys : list string) (m : gmap string Z)
    (k : string) (c : Z) :
  (k, c) ∈ unordered_order keys m ↔ m !! k = Some c.
Proof. by rewrite (unordered_order_perm keys m), elem_of_map_to_list. Qed.

Lemma unordered_order_NoDup (keys : list string) (m : gmap string Z) :
  NoDup (unordered_order keys m).*1.
Proof.
  rewrite (unordered_order_perm keys m). apply NoDup_fst_map_to_list.
Qed.

Lemma add_entries_other (entries : list (string * Z)) (k : string) :
  k ∉ entries.*1 →
  ∀ j, obj_get k (foldl (λ j (entry : string * Z),
                           let '(class_name, n) := entry in
                           obj_set class_name (JInt n) j) j entries)
       = obj_get k j.
Proof.
  induction entries as [|[k' c] entries IH]; intros Hk j; cbn; [done|].
  cbn in Hk. apply not_elem_of_cons in Hk as [Hne Hk].
  rewrite IH by done. by apply obj_get_set_ne.
Qed.

Lemma add_entries_member (entries : list (string * Z)) (k : string) (c : Z) :
  NoDup entries.*1 → (k, c) ∈ entries →
  ∀ j, obj_get k (foldl (λ j (entry : string * Z),
                           let '(class_name, n) := entry in
                           obj_set class_name (JInt n) j) j entries)
       = Some (JInt c).
Proof.
  induction entries as [|[k' c'] entries IH]; intros Hnd Hin j.
  - by apply elem_of_nil in Hin.
  - cbn in Hnd. apply NoDup_cons in Hnd as [Hfresh Hnd].
    apply elem_of_cons in Hin as [Heq|Hin]; cbn.
    + injection Heq as <- <-.
      rewrite add_entries_other by done. apply obj_get_set_eq.
    + by apply IH.
Qed.

Lemma add_entries_is_Some (entries : list (string * Z)) (k : string) :
  ∀ j, is_Some (obj_get k j) →
       is_Some (obj_get k (foldl (λ j (entry : string * Z),
                                    let '(class_name, n) := entry in
                                    obj_set class_name (JInt n) j) j entries)).
Proof.
  induction entries as [|[k' c'] entries IH]; intros j Hj; cbn; [done|].
  apply IH. by apply obj_get_set_is_Some.
Qed.
End Iteration.

(** C10. The Json formatter never reads [suppress_empty]: for either value
    of the flag and for every result, the empty one included, it returns
    the same non-empty dump of an object that has a timestamp key and a
    person key whose value is the number of valid selected detections
    named person, at least 0.  The publishers [main] wires therefore
    produce the same messages with and without [--suppress-empty]. *)
Theorem JsonMessageFormatter_ignores_suppress_empty `{CxxRuntime}
    (suppress_empty : bool) (r : InferenceResult) :
  formatMessage (JsonMessageFormatter suppress_empty) r ≠ "" ∧
  formatMessage (JsonMessageFormatter suppress_empty) r
  = formatMessage (JsonMessageFormatter (negb suppress_empty)) r ∧
  formatMessage (JsonMessageFormatter suppress_empty) r
  = dump (JObject (JsonMessageFormatter_json r)) ∧
  is_Some (obj_get "timestamp" (JsonMessageFormatter_json r)) ∧
  obj_get "person" (JsonMessageFormatter_json r)
  = Some (JInt (occurrences "person" (map name (selected_valid r)))) ∧
  0 ≤ occurrences "person" (map name (selected_valid r)) ∧
  map (λ p, formatMessage (formatter p) r)
      (main_file_input_publishers suppress_empty
       ++ main_video_publishers suppress_empty)
  = map (λ p, formatMessage (formatter p) r)
        (main_file_input_publishers (negb suppress_empty)
         ++ main_video_publishers (negb suppress_empty)).
Proof.
  repeat apply conj; try reflexivity.
  - apply dump_object_nonempty.
  - unfold JsonMessageFormatter_json, add_class_counts.
    apply add_entries_is_Some. cbn. by eexists.
  - unfold JsonMessageFormatter_json, add_class_counts.
    apply add_entries_member; [apply unordered_order_NoDup|].
    apply unordered_order_elem.
    rewrite Json_class_counts_filter. apply count_names_person.
  - unfold occurrences. lia.
Qed.

(** ** BrightScript messages *)

Lemma append_assoc (a b c : string) : (a +:+ b) +:+ c = a +:+ (b +:+ c).
Proof.
  induction a as [|x a IH]; [done|].
  change (String x ((a +:+ b) +:+ c) = String x (a +:+ (b +:+ c))).
  by rewrite IH.
Qed.

Lemma string_empty_append (a b : string) :
  string_empty (a +:+ b) = string_empty a && string_empty b.
Proof. by destruct a. Qed.

Lemma join_cons_append (sep a b : string) (l : list string) :
  join sep ((a +:+ b) :: l) = a +:+ join sep (b :: l).
Proof. destruct l as [|c l]; cbn; [done|]. by rewrite append_assoc. Qed.

Lemma join_snoc (sep x : string) (l : list string) :
  l ≠ [] → join sep (l ++ [x]) = (join sep l +:+ sep) +:+ x.
Proof.
  induction l as [|a l IH]; [done|]. intros _.
  destruct l as [|b l].
  - change (a +:+ sep +:+ x = (a +:+ sep) +:+ x). by rewrite append_assoc.
  - change (join sep ((a :: b :: l) ++ [x]))
      with (a +:+ sep +:+ join sep ((b :: l) ++ [x])).
    rewrite IH by done.
    change (join sep (a :: b :: l)) with (a +:+ sep +:+ join sep (b :: l)).
    by rewrite !append_assoc.
Qed.

Section BrightScript.
Context `{CxxRuntime}.

Lemma bs_entries_rest (entries : list (string * Z)) (message : string) :
  foldl (λ (acc : string * bool) (entry : string * Z),
           let '(message, first) := acc in
           let '(class_name, n) := entry in
           let message := if first then message else message +:+ "!!" in
           (message +:+ (class_name +:+ ":" +:+ to_string n), false))
        (message, false) entries
  = (join "!!" (message :: map bs_field entries), false).
Proof.
  revert message. induction entries as [|[k c] entries IH]; intros message.
  - reflexivity.
  - cbn [foldl]. rewrite IH. cbn [map]. f_equal.
    rewrite append_assoc, join_cons_append.
    change (bs_field (k, c)) with (k +:+ ":" +:+ to_string c).
    change (join "!!" (message :: (k +:+ ":" +:+ to_string c)
                                :: map bs_field entries))
      with (message +:+ "!!" +:+
            join "!!" ((k +:+ ":" +:+ to_string c) :: map bs_field entries)).
    f_equal. by rewrite <- join_cons_append.
Qed.

Lemma bs_entries_join (entries : list (string * Z)) :
  entries ≠ [] → bs_entries entries = (join "!!" (map bs_field entries), false).
Proof.
  destruct entries as [|[k c] entries]; [done|]. intros _.
  unfold bs_entries. cbn [foldl]. rewrite bs_entries_rest. reflexivity.
Qed.

Lemma bs_fields_nonempty (entries : list (string * Z)) :
  entries ≠ [] → string_empty (join "!!" (map bs_field entries)) = false.
Proof.
  destruct entries as [|[k c] entries]; [done|]. intros _.
  assert (Hfield : string_empty (bs_field (k, c)) = false).
  { unfold bs_field. rewrite string_empty_append. cbn.
    by rewrite andb_false_r. }
  destruct entries as [|e entries]; cbn [map join]; [done|].
  rewrite string_empty_append, Hfield. reflexivity.
Qed.
End BrightScript.

Lemma count_names_keys (names : list string) :
  fst (count_names names) = "person" :: names.
Proof.
  induction names as [|n names IH] using rev_ind; [done|].
  rewrite count_names_snoc. cbn [fst]. by rewrite IH.
Qed.

Lemma occurrences_absent (k : string) (names : list string) :
  Forall (λ n, n ≠ k) names → occurrences k names = 0.
Proof.
  unfold occurrences. induction 1 as [|n names Hne _ IH]; [done|].
  cbn. destruct (String.eqb_spec k n); [congruence | done].
Qed.

(** C6. The SelectiveBS message is its fields joined by [!!]: one
    [name:count] field per entry of the count table, in the table's
    iteration order, followed by the timestamp field as the last one.
    Among the class fields there is always one for person, carrying the
    number of valid selected detections whose (possibly renamed) name is
    person, so it reads [person:0] when there is none.  For an empty
    detection list and the filter {0} the message is exactly
    [person:0!!timestamp:<t>]. *)
Theorem SelectiveBS_person_floor `{CxxRuntime} (cm : gmap string string)
    (r : InferenceResult) :
  let names := map (λ d, mapClassName cm (name d)) (selected_valid r) in
  let entries := unordered_order ("person" :: names) (snd (count_names names)) in
  let person := "person:" +:+ to_string (occurrences "person" names) in
  formatMessage (SelectiveBSMessageFormatter cm) r
  = join "!!" (map bs_field entries ++ [timestamp_field r]) ∧
  entries ≡ₚ map_to_list (snd (count_names names)) ∧
  (∃ before after, map bs_field entries = before ++ person :: after) ∧
  (Forall (λ n, n ≠ "person") names → person = "person:0") ∧
  ∀ (stale : list object_detect_result) (ts : Z),
    formatMessage (SelectiveBSMessageFormatter cm)
                  (mk_result (mk_list 0 stale) ts [0])
    = "person:0!!timestamp:" +:+ to_string (to_time_t ts).
Proof.
  intros names entries person.
  assert (Hperson : ("person", occurrences "person" names) ∈ entries).
  { apply unordered_order_elem, count_names_person. }
  assert (Hne : entries ≠ []).
  { intros Hnil. rewrite Hnil in Hperson. by apply elem_of_nil in Hperson. }
  assert (Hfmt : ∀ r' : InferenceResult,
    let names' := map (λ d, mapClassName cm (name d)) (selected_valid r') in
    let entries' :=
      unordered_order ("person" :: names') (snd (count_names names')) in
    formatMessage (SelectiveBSMessageFormatter cm) r'
    = join "!!" (map bs_field entries' ++ [timestamp_field r'])).
  { intros r' names' entries'.
    assert (Hne' : entries' ≠ []).
    { intros Hnil.
      assert (Hp : ("person", occurrences "person" names') ∈ entries')
        by apply unordered_order_elem, count_names_person.
      rewrite Hnil in Hp. by apply elem_of_nil in Hp. }
    cbn [formatMessage]. unfold SelectiveBSMessageFormatter_formatMessage.
    rewrite Selective_class_counts_filter, count_names_keys.
    fold names'. fold entries'.
    rewrite bs_entries_join by done. cbn [fst].
    rewrite bs_fields_nonempty by done.
    rewrite join_snoc; [done|]. by destruct entries'. }
  repeat apply conj.
  - apply Hfmt.
  - apply unordered_order_perm.
  - apply (list_elem_of_fmap_2 bs_field) in Hperson.
    apply list_elem_of_split in Hperson as (before & after & Hsplit).
    by exists before, after.
  - intros Habsent. subst person. by rewrite occurrences_absent.
  - intros stale ts. rewrite Hfmt. cbn zeta.
    assert (Hnone : selected_valid (mk_result (mk_list 0 stale) ts [0]) = [])
      by reflexivity.
    rewrite Hnone. cbn [map].
    assert (Hone : unordered_order ["person"] (snd (count_names []))
                   = [("person", 0)]).
    { apply Permutation_singleton_r.
      rewrite unordered_order_perm. cbn. unfold person_floor.
      by rewrite map_to_list_singleton. }
    rewrite Hone. reflexivity.
Qed.

(** The scenario of the formatter tests: two persons and a car under the
    filter {0, 2}. *)
Example SelectiveBS_two_persons_one_car :
  let d := λ id n, mk_det (mk_box 10 10 50 50) (S754_finite false 3 (-2)) id n in
  formatMessage (SelectiveBSMessageFormatter ∅)
    (mk_result (mk_list 3 [d 0 "person"; d 0 "person"; d 2 "car"])
               1746732409000000000 [0; 2])
  = "car:1!!person:2!!timestamp:1746732409".
Proof. reflexivity. Qed.

(* ===================================================================== *)
(** * Part IV: further properties of the code *)
(* ===================================================================== *)

Set Warnings "-clear-no-such-hyp".

(** ** Parsing the selection string *)

Lemma append_cons (c : ascii) (s t : string) :
  String c s +:+ t = String c (s +:+ t).
Proof. reflexivity. Qed.

Lemma append_length (s t : string) :
  String.length (s +:+ t) = (String.length s + String.length t)%nat.
Proof.
  induction s as [|c s IH]; [done|].
  rewrite append_cons. cbn [String.length]. by rewrite IH.
Qed.

Lemma parse_loop_acc (class_mapping : gmap string Z) (fuel : nat) :
  ∀ (stream : string) (selected : list Z),
    parse_loop fuel stream class_mapping selected
    = selected ++ parse_loop fuel stream class_mapping [].
Proof.
  induction fuel as [|fuel IH]; intros stream selected; cbn [parse_loop].
  - by rewrite app_nil_r.
  - destruct (getline stream) as [[tok rest]|]; [|by rewrite app_nil_r].
    rewrite IH.
    rewrite (IH rest (match erase_trailing (erase_leading tok) with
                      | EmptyString => []
                      | String _ _ => _ end)).
    destruct (erase_trailing (erase_leading tok)) as [|c s];
      [by rewrite app_nil_l|].
    destruct (class_mapping !! String c s); [|by rewrite app_nil_l].
    by rewrite app_assoc.
Qed.

Lemma parseClassNames_loop (s : string) (class_mapping : gmap string Z) :
  parseClassNames s class_mapping
  = parse_loop (S (String.length s)) s class_mapping [].
Proof. by destruct s. Qed.

Lemma parse_loop_S (fuel : nat) (c : ascii) (s : string)
    (class_mapping : gmap string Z) (selected : list Z) :
  parse_loop (S fuel) (String c s) class_mapping selected
  = parse_loop fuel (snd (take_until_comma (String c s))) class_mapping
      (selected ++ token_ids class_mapping (fst (take_until_comma (String c s)))).
Proof.
  cbn [parse_loop getline].
  destruct (take_until_comma (String c s)) as [tok rest]. cbn [fst snd].
  unfold token_ids.
  destruct (erase_trailing (erase_leading tok)) as [|c' s'];
    [by rewrite app_nil_r|].
  destruct (class_mapping !! String c' s'); [done | by rewrite app_nil_r].
Qed.

Lemma take_until_comma_rest (c : ascii) (s : string) :
  (String.length (snd (take_until_comma (String c s))) ≤ String.length s)%nat.
Proof.
  pose proof (take_until_comma_length s) as Hlen.
  cbn [take_until_comma]. destruct (Ascii.eqb c ","); cbn [snd]; [lia|].
  by destruct (take_until_comma s).
Qed.

Lemma parseClassNames_unfold (c : ascii) (s : string)
    (class_mapping : gmap string Z) :
  parseClassNames (String c s) class_mapping
  = token_ids class_mapping (fst (take_until_comma (String c s)))
    ++ parseClassNames (snd (take_until_comma (String c s))) class_mapping.
Proof.
  rewrite !parseClassNames_loop, parse_loop_S, parse_loop_acc.
  pose proof (take_until_comma_rest c s) as Hrest.
  cbn [String.length]. rewrite app_nil_l. f_equal.
  apply parse_loop_fuel; lia.
Qed.

(** Where the first comma of a string is, if it has one. *)
Lemma take_until_comma_cases (s : string) :
  (take_until_comma s = (s, "") ∧
   ∀ t, take_until_comma (s +:+ "," +:+ t) = (s, t)) ∨
  (∃ tok rest, take_until_comma s = (tok, rest) ∧
               (String.length rest < String.length s)%nat ∧
               ∀ t, take_until_comma (s +:+ t) = (tok, rest +:+ t)).
Proof.
  induction s as [|c s IH].
  - left. split; [reflexivity | intros t; reflexivity].
  - destruct (Ascii.eqb c ",") eqn:Hc.
    + right. exists "", s. cbn [take_until_comma]. rewrite Hc.
      split; [done|]. split; [cbn; lia|].
      intros t. rewrite append_cons. cbn [take_until_comma]. by rewrite Hc.
    + destruct IH as [[Hs Ht] | (tok & rest & Hs & Hlen & Ht)].
      * left. cbn [take_until_comma]. rewrite Hc, Hs. split; [done|].
        intros t. rewrite append_cons. cbn [take_until_comma].
        by rewrite Hc, Ht.
      * right. exists (String c tok), rest. cbn [take_until_comma].
        rewrite Hc, Hs. split; [done|]. split; [cbn; lia|].
        intros t. rewrite append_cons. cbn [take_until_comma].
        by rewrite Hc, Ht.
Qed.

(** X1. A comma splits the selection string: parsing [a,b] gives the ids
    parsed from [a] followed by the ids parsed from [b], whatever [a] and
    [b] are (empty, blank, or themselves lists). *)
Theorem parseClassNames_concat (a b : string) (class_mapping : gmap string Z) :
  parseClassNames (a +:+ "," +:+ b) class_mapping
  = parseClassNames a class_mapping ++ parseClassNames b class_mapping.
Proof.
  remember (String.length a) as n eqn:Hn.
  revert a Hn. induction n as [n IH] using lt_wf_ind. intros a ->.
  destruct a as [|c a].
  - change ("" +:+ "," +:+ b) with (String "," b).
    rewrite parseClassNames_unfold. reflexivity.
  - rewrite append_cons, !parseClassNames_unfold, <- append_cons.
    destruct (take_until_comma_cases (String c a))
      as [[Hs Ht] | (tok & rest & Hs & Hlen & Ht)].
    + rewrite Ht, Hs. cbn [fst snd].
      change (parseClassNames "" class_mapping) with (@nil Z).
      by rewrite app_nil_r.
    + rewrite Ht, Hs. cbn [fst snd].
      rewrite (IH (String.length rest) Hlen rest eq_refl).
      by rewrite app_assoc.
Qed.

(** X2. Every id [parseClassNames] returns is what the label table holds
    for some non-empty name; names the table does not know contribute
    nothing, and an empty table yields the empty selection. *)
Theorem parseClassNames_from_mapping (classes_str : string)
    (class_mapping : gmap string Z) :
  (∀ id, id ∈ parseClassNames classes_str class_mapping →
         ∃ class_name, class_name ≠ "" ∧ class_mapping !! class_name = Some id) ∧
  parseClassNames classes_str ∅ = [].
Proof.
  assert (Hinv : ∀ (m : gmap string Z) (P : Z → Prop),
    (∀ nm id, nm ≠ "" → m !! nm = Some id → P id) →
    ∀ fuel stream selected,
      Forall P selected → Forall P (parse_loop fuel stream m selected)).
  { intros m P HP fuel. induction fuel as [|fuel IH];
      intros stream selected Hsel; cbn [parse_loop]; [done|].
    destruct (getline stream) as [[tok rest]|]; [|done].
    apply IH.
    destruct (erase_trailing (erase_leading tok)) as [|c s] eqn:Hname; [done|].
    destruct (m !! String c s) as [id|] eqn:Hid; [|done].
    apply Forall_app. split; [done|]. constructor; [|constructor].
    by apply (HP (String c s)). }
  split.
  - intros id Hid. rewrite parseClassNames_loop in Hid.
    pose proof (Hinv class_mapping
      (λ id, ∃ nm, nm ≠ "" ∧ class_mapping !! nm = Some id)
      (λ nm id Hne Hlook, ex_intro _ nm (conj Hne Hlook))
      (S (String.length classes_str)) classes_str [] (Forall_nil_2 _)) as Hall.
    rewrite Forall_forall in Hall. by apply Hall.
  - rewrite parseClassNames_loop.
    pose proof (Hinv ∅ (λ _, False)) as Hnone.
    assert (Hall : Forall (λ _ : Z, False)
              (parse_loop (S (String.length classes_str)) classes_str ∅ [])).
    { apply Hnone; [|constructor]. intros nm id _ Hlook.
      by rewrite lookup_empty in Hlook. }
    destruct (parse_loop _ _ _ _) as [|id ids]; [done|].
    by apply Forall_cons in Hall as [[] _].
Qed.

Lemma erase_leading_blank (pad s : string) :
  all_blank pad = true → erase_leading (pad +:+ s) = erase_leading s.
Proof.
  induction pad as [|c pad IH]; [done|]. cbn [all_blank].
  intros [Hc Hpad]%andb_true_iff. rewrite append_cons. cbn [erase_leading].
  rewrite Hc. by apply IH.
Qed.

Lemma erase_leading_all_blank (s : string) :
  all_blank s = true → erase_leading s = "".
Proof.
  induction s as [|c s IH]; [done|]. cbn [all_blank erase_leading].
  intros [-> Hs]%andb_true_iff. by apply IH.
Qed.

Lemma erase_leading_append (s t : string) :
  erase_leading (s +:+ t)
  = if all_blank s then erase_leading t else erase_leading s +:+ t.
Proof.
  induction s as [|c s IH]; [done|].
  rewrite append_cons. cbn [erase_leading all_blank].
  destruct (is_blank c); cbn [andb]; [exact IH | done].
Qed.

Lemma erase_trailing_all_blank (s : string) :
  all_blank s = true → erase_trailing s = "".
Proof.
  induction s as [|c s IH]; [done|]. cbn [all_blank erase_trailing].
  intros [-> Hs]%andb_true_iff. by rewrite IH.
Qed.

Lemma erase_trailing_blank (s pad : string) :
  all_blank pad = true → erase_trailing (s +:+ pad) = erase_trailing s.
Proof.
  intros Hpad. induction s as [|c s IH].
  - by apply erase_trailing_all_blank.
  - rewrite append_cons. cbn [erase_trailing]. by rewrite IH.
Qed.

Lemma take_until_comma_free (s : string) :
  comma_free s = true → take_until_comma s = (s, "").
Proof.
  induction s as [|c s IH]; [done|]. cbn [comma_free take_until_comma].
  intros [Hc Hs]%andb_true_iff. apply negb_true_iff in Hc.
  by rewrite Hc, IH.
Qed.

Lemma comma_free_append (s t : string) :
  comma_free (s +:+ t) = comma_free s && comma_free t.
Proof.
  induction s as [|c s IH]; [done|].
  rewrite append_cons. cbn [comma_free]. by rewrite IH, andb_assoc.
Qed.

Lemma all_blank_comma_free (s : string) :
  all_blank s = true → comma_free s = true.
Proof.
  induction s as [|c s IH]; [done|]. cbn [all_blank comma_free].
  intros [Hc Hs]%andb_true_iff. rewrite IH by done.
  unfold is_blank in Hc.
  destruct (Ascii.eqb_spec c ",") as [->|_]; [discriminate Hc | done].
Qed.

Lemma parseClassNames_single (s : string) (class_mapping : gmap string Z) :
  comma_free s = true →
  parseClassNames s class_mapping = token_ids class_mapping s.
Proof.
  intros Hfree. destruct s as [|c s]; [done|].
  rewrite parseClassNames_unfold, take_until_comma_free by done.
  cbn [fst snd]. change (parseClassNames "" class_mapping) with (@nil Z).
  by rewrite app_nil_r.
Qed.

(** X3. Blanks and tabs around a name are ignored: padding a comma-free
    string on either side with blanks does not change what is parsed
    from it. *)
Theorem parseClassNames_padding (pad1 s pad2 : string)
    (class_mapping : gmap string Z) :
  all_blank pad1 = true → all_blank pad2 = true → comma_free s = true →
  parseClassNames (pad1 +:+ s +:+ pad2) class_mapping
  = parseClassNames s class_mapping.
Proof.
  intros Hpad1 Hpad2 Hfree.
  rewrite !parseClassNames_single; [|done|].
  - unfold token_ids. rewrite erase_leading_blank by done.
    rewrite erase_leading_append.
    destruct (all_blank s) eqn:Hs.
    + rewrite (erase_leading_all_blank pad2), (erase_leading_all_blank s)
        by done. reflexivity.
    + by rewrite erase_trailing_blank.
  - rewrite !comma_free_append, Hfree.
    by rewrite !all_blank_comma_free.
Qed.

Lemma parseClassNames_padding_witness :
  parseClassNames ("  " +:+ "car" +:+ " ") {[ "car" := 2 ]}
  = parseClassNames "car" {[ "car" := 2 ]}.
Proof.
  apply (parseClassNames_padding "  " "car" " " {[ "car" := 2 ]});
    reflexivity.
Defined.

(** ** Loading the labels file *)

Lemma load_lines_labels (lines : list string) (acc : gmap string Z * Z) :
  foldl load_line acc lines
  = foldl (λ (acc : gmap string Z * Z) label,
             (<[label := snd acc]> (fst acc), snd acc + 1))
          acc
          (List.filter (λ line, negb (string_empty line))
                       (map erase_trailing_space lines)).
Proof.
  revert acc. induction lines as [|line lines IH]; intros acc; [done|].
  cbn [foldl map List.filter]. rewrite IH. unfold load_line at 1.
  by destruct (string_empty (erase_trailing_space line)).
Qed.

Lemma assign_labels (labels : list string) :
  let table := foldl (λ (acc : gmap string Z * Z) label,
                        (<[label := snd acc]> (fst acc), snd acc + 1))
                     (∅, 0) labels in
  snd table = Z.of_nat (length labels) ∧
  ∀ label id,
    fst table !! label = Some id ↔
    ∃ n : nat, id = Z.of_nat n ∧ labels !! n = Some label ∧
               label ∉ drop (S n) labels.
Proof.
  induction labels as [|l labels IH] using rev_ind.
  - cbn. split; [done|]. intros label id. rewrite lookup_empty.
    split; [done|]. by intros (n & _ & Hn & _).
  - cbn zeta in *. rewrite foldl_snoc. cbn [fst snd].
    destruct IH as [Hnext IH]. rewrite Hnext, length_app. cbn [length].
    split; [lia|]. intros label id.
    destruct (decide (label = l)) as [->|Hne].
    + rewrite lookup_insert_eq. split.
      * intros [= <-]. exists (length labels). split; [done|].
        rewrite lookup_app_r, Nat.sub_diag by lia. split; [done|].
        rewrite drop_ge; [apply not_elem_of_nil|].
        rewrite length_app. cbn. lia.
      * intros (n & -> & Hn & Hlast). f_equal. f_equal.
        destruct (decide (n < length labels)%nat) as [Hlt|Hge].
        -- exfalso. apply Hlast. rewrite drop_app_le by lia.
           apply elem_of_app. right. left.
        -- apply lookup_lt_Some in Hn. rewrite length_app in Hn.
           cbn in Hn. lia.
    + rewrite lookup_insert_ne by done. rewrite IH. split.
      * intros (n & -> & Hn & Hlast). exists n. split; [done|].
        pose proof (lookup_lt_Some _ _ _ Hn) as Hlt.
        rewrite lookup_app_l by done. split; [done|].
        rewrite drop_app_le by lia. rewrite not_elem_of_app.
        split; [done|]. apply not_elem_of_cons.
        split; [done | apply not_elem_of_nil].
      * intros (n & -> & Hn & Hlast). exists n. split; [done|].
        destruct (decide (n < length labels)%nat) as [Hlt|Hge].
        -- rewrite lookup_app_l in Hn by done. split; [done|].
           rewrite drop_app_le in Hlast by lia.
           by apply not_elem_of_app in Hlast as [? _].
        -- rewrite lookup_app_r in Hn by lia.
           apply list_lookup_singleton_Some in Hn as [_ ->]. done.
Qed.

Lemma loadCocoClassMapping_numbering_aux (content label : string) (id : Z) :
  loadCocoClassMapping (Some content) !! label = Some id ↔
  ∃ n : nat, id = Z.of_nat n ∧ file_labels content !! n = Some label ∧
             label ∉ drop (S n) (file_labels content).
Proof.
  unfold loadCocoClassMapping. rewrite load_lines_labels.
  apply (assign_labels (file_labels content)).
Qed.

(** X4. [loadCocoClassMapping] numbers the non-blank lines of the labels
    file from 0 in file order: a label is mapped to [n] exactly when it
    is the [n]-th label and does not occur again further down, so a
    repeated label keeps the number of its last occurrence.  A file that
    cannot be opened gives the empty table. *)
Theorem loadCocoClassMapping_numbering (content label : string) (id : Z) :
  (loadCocoClassMapping (Some content) !! label = Some id ↔
   ∃ n : nat, id = Z.of_nat n ∧ file_labels content !! n = Some label ∧
              label ∉ drop (S n) (file_labels content)) ∧
  loadCocoClassMapping None !! label = None.
Proof.
  split; [|apply lookup_empty].
  unfold loadCocoClassMapping. rewrite load_lines_labels.
  apply (assign_labels (file_labels content)).
Qed.

(** The first lines of the COCO labels file, as the tests read them. *)
Example loadCocoClassMapping_coco :
  let table := loadCocoClassMapping
                 (Some ("person" +:+ String "010" ("bicycle " +:+
                        String "010" (String "010" ("car" +:+ String "010" ""))))) in
  table !! "person" = Some 0 ∧ table !! "bicycle" = Some 1 ∧
  table !! "car" = Some 2 ∧ table !! "dog" = None.
Proof. cbn zeta. repeat apply conj; reflexivity. Qed.

(** ** The filter main resolves *)

Lemma ensure_class0 (parsed : list Z) :
  let selected := if Nat.eqb (std_find parsed 0) (length parsed)
                  then parsed ++ [0] else parsed in
  selected ≠ [] ∧ 0 ∈ selected ∧ (parsed = [] → selected = [0]).
Proof.
  cbn zeta.
  destruct (Nat.eqb_spec (std_find parsed 0) (length parsed)) as [He|Hne].
  - split; [by destruct parsed|]. split; [|by intros ->].
    apply elem_of_app. right. left.
  - assert (Hin : 0 ∈ parsed).
    { destruct (decide (0 ∈ parsed)); [done|].
      exfalso. apply Hne. by apply std_find_end. }
    split; [|split; [done|]].
    + intros ->. by apply elem_of_nil in Hin.
    + intros ->. by apply elem_of_nil in Hin.
Qed.

(** X5. The filter [main] resolves is never the empty "all classes"
    sentinel: under it [isClassSelected] is plain membership, class 0 is
    always selected, and when no name of the selection string resolves
    (or none was given) the filter is [0] alone, so only class 0 is
    selected. *)
Theorem main_filter_is_membership (classes_str : string)
    (class_mapping : gmap string Z) :
  match main_selected_classes classes_str class_mapping with
  | Some selected =>
      selected ≠ [] ∧
      (∀ id, isClassSelected id selected = true ↔ id ∈ selected) ∧
      isClassSelected 0 selected = true ∧
      (parseClassNames classes_str class_mapping = [] →
       ∀ id, isClassSelected id selected = true ↔ id = 0)
  | None => True
  end.
Proof.
  assert (Hgoal : ∀ parsed : list Z,
    parsed = parseClassNames classes_str class_mapping →
    let selected := if Nat.eqb (std_find parsed 0) (length parsed)
                    then parsed ++ [0] else parsed in
    selected ≠ [] ∧
    (∀ id, isClassSelected id selected = true ↔ id ∈ selected) ∧
    isClassSelected 0 selected = true ∧
    (parseClassNames classes_str class_mapping = [] →
     ∀ id, isClassSelected id selected = true ↔ id = 0)).
  { intros parsed Hparsed. pose proof (ensure_class0 parsed) as Hens.
    cbn zeta in *. destruct Hens as (Hne & H0 & Hnil).
    set (selected := if Nat.eqb _ _ then _ else _) in *.
    assert (Hmem : ∀ id, isClassSelected id selected = true ↔ id ∈ selected)
      by (intros id; by apply isClassSelected_nonempty).
    split; [done|]. split; [done|]. split; [by apply Hmem|].
    intros Hnone id. rewrite Hmem, Hnil by congruence.
    by rewrite list_elem_of_singleton. }
  unfold main_selected_classes.
  destruct classes_str as [|c rest].
  - cbn [string_empty]. by apply (Hgoal []).
  - cbn [string_empty]. case_bool_decide as Hm; [done|].
    specialize (Hgoal _ eq_refl). cbn zeta in Hgoal.
    by destruct (Nat.eqb _ _).
Qed.

(** ** The command line *)

Lemma parse_flags_app (a b : list string) :
  ∀ (se : bool) (cs : string) (se' : bool) (cs' : string),
    parse_flags a se cs = Some (se', cs') →
    parse_flags (a ++ b) se cs = parse_flags b se' cs'.
Proof.
  remember (length a) as n eqn:Hn. revert a Hn.
  induction n as [n IH] using lt_wf_ind. intros a -> se cs se' cs' Ha.
  destruct a as [|arg rest]; [by injection Ha as <- <-|].
  cbn [parse_flags app] in *.
  destruct (String.eqb arg "--suppress-empty").
  - apply (IH (length rest)); [cbn; lia | done | done].
  - destruct (String.eqb arg "--classes").
    + destruct rest as [|value rest']; [done|]. cbn [app].
      apply (IH (length rest')); [cbn; lia | done | done].
    + apply (IH (length rest)); [cbn; lia | done | done].
Qed.

Lemma parse_flags_keeps_suppress (a : list string) :
  ∀ (cs : string) (se' : bool) (cs' : string),
    parse_flags a true cs = Some (se', cs') → se' = true.
Proof.
  remember (length a) as n eqn:Hn. revert a Hn.
  induction n as [n IH] using lt_wf_ind. intros a -> cs se' cs' Ha.
  destruct a as [|arg rest]; [by injection Ha as <- <-|].
  cbn [parse_flags] in Ha.
  destruct (String.eqb arg "--suppress-empty").
  - by apply (IH (length rest)) in Ha; [|cbn; lia|].
  - destruct (String.eqb arg "--classes").
    + destruct rest as [|value rest']; [done|].
      by apply (IH (length rest')) in Ha; [|cbn; lia|].
    + by apply (IH (length rest)) in Ha; [|cbn; lia|].
Qed.

(** X6. The optional flags are read left to right: once a prefix of the
    flags has been accepted, what follows is read from the state the
    prefix left.  Hence a later [--classes] replaces an earlier one, a
    later [--suppress-empty] sets the flag, and nothing can unset it. *)
Theorem parse_flags_left_to_right (a : list string) (se : bool) (cs : string)
    (se' : bool) (cs' : string) :
  parse_flags a se cs = Some (se', cs') →
  (∀ b, parse_flags (a ++ b) se cs = parse_flags b se' cs') ∧
  (∀ value, parse_flags (a ++ ["--classes"; value]) se cs = Some (se', value)) ∧
  parse_flags (a ++ ["--suppress-empty"]) se cs = Some (true, cs') ∧
  (se = true → se' = true).
Proof.
  intros Ha. repeat apply conj.
  - intros b. by apply parse_flags_app.
  - intros value. by rewrite (parse_flags_app a _ se cs se' cs').
  - by rewrite (parse_flags_app a _ se cs se' cs').
  - intros ->. by apply parse_flags_keeps_suppress in Ha.
Qed.

Lemma parse_flags_left_to_right_witness :
  (∀ b, parse_flags (["--classes"; "dog"; "-v"] ++ b) false ""
        = parse_flags b false "dog") ∧
  (∀ value, parse_flags (["--classes"; "dog"; "-v"] ++ ["--classes"; value])
                        false "" = Some (false, value)) ∧
  parse_flags (["--classes"; "dog"; "-v"] ++ ["--suppress-empty"]) false ""
  = Some (true, "dog") ∧
  (false = true → false = true).
Proof.
  apply (parse_flags_left_to_right ["--classes"; "dog"; "-v"] false ""
           false "dog").
  reflexivity.
Defined.

(** X7. [main] rejects a command line in exactly two cases: fewer than
    three [argv] entries, or a [--classes] that is the last word and
    stands where a flag is expected (the flags before it having been
    accepted).  In particular the word after [--classes] is always taken
    as its value, never as a flag. *)
Theorem main_parse_args_rejects (argv : list string) :
  main_parse_args argv = None ↔
  (length argv < 3)%nat ∨
  ∃ before, drop 3 argv = before ++ ["--classes"] ∧
            is_Some (parse_flags before false "").
Proof.
  assert (Hflags : ∀ args se cs,
    parse_flags args se cs = None ↔
    ∃ before, args = before ++ ["--classes"] ∧
              is_Some (parse_flags before se cs)).
  { intros args se cs. split.
    - remember (length args) as n eqn:Hn. revert args Hn se cs.
      induction n as [n IH] using lt_wf_ind. intros args -> se cs Hnone.
      destruct args as [|arg rest]; [done|]. cbn [parse_flags] in Hnone.
      destruct (String.eqb arg "--suppress-empty") eqn:Hs.
      + apply (IH (length rest)) in Hnone as (before & -> & Hsome);
          [|cbn; lia|done].
        exists (arg :: before). split; [done|]. cbn [parse_flags].
        by rewrite Hs.
      + destruct (String.eqb_spec arg "--classes") as [->|Hc].
        * destruct rest as [|value rest'].
          -- exists []. split; [done|]. by eexists.
          -- apply (IH (length rest')) in Hnone as (before & -> & Hsome);
               [|cbn; lia|done].
             exists ("--classes" :: value :: before). split; [done|].
             done.
        * apply (IH (length rest)) in Hnone as (before & -> & Hsome);
            [|cbn; lia|done].
          exists (arg :: before). split; [done|]. cbn [parse_flags].
          rewrite Hs. by apply String.eqb_neq in Hc as ->.
    - intros (before & -> & [[se' cs'] Hsome]).
      by rewrite (parse_flags_app before _ se cs se' cs'). }
  unfold main_parse_args.
  destruct (Nat.ltb_spec (length argv) 3) as [Hshort|Hlong].
  - split; [by left | done].
  - rewrite Hflags. split; [by right|]. intros [Hlt|Hex]; [lia | done].
Qed.

(** ** Formatters: the count table and the JSON object *)

Lemma mapClassName_empty (original_name : string) :
  mapClassName ∅ original_name = original_name.
Proof. unfold mapClassName. by rewrite lookup_empty. Qed.

Lemma Selective_class_counts_empty (r : InferenceResult) :
  Selective_class_counts ∅ r = Json_class_counts r.
Proof.
  rewrite Selective_class_counts_filter, Json_class_counts_filter.
  f_equal; try (apply map_ext; intros d; apply mapClassName_empty).
Qed.

(** X8. Without a rename table the SelectiveJson formatter is the Json
    formatter: both build the same object and return the same message,
    for every result and either value of [suppress_empty].  The same
    holds for the file and UDP JSON publishers [main] wires. *)
Theorem SelectiveJson_without_mapping `{CxxRuntime} (suppress_empty : bool)
    (r : InferenceResult) :
  SelectiveJsonMessageFormatter_json ∅ r = JsonMessageFormatter_json r ∧
  formatMessage (SelectiveJsonMessageFormatter ∅) r
  = formatMessage (JsonMessageFormatter suppress_empty) r.
Proof.
  assert (Hjson : SelectiveJsonMessageFormatter_json ∅ r
                  = JsonMessageFormatter_json r).
  { unfold SelectiveJsonMessageFormatter_json, JsonMessageFormatter_json.
    by rewrite Selective_class_counts_empty. }
  split; [exact Hjson|]. cbn [formatMessage].
  unfold SelectiveJsonMessageFormatter_formatMessage,
    JsonMessageFormatter_formatMessage.
  by rewrite Hjson.
Qed.

Lemma count_names_dom (names : list string) (k : string) :
  is_Some (snd (count_names names) !! k) ↔ k = "person" ∨ k ∈ names.
Proof.
  induction names as [|n names IH] using rev_ind.
  - cbn. unfold person_floor. rewrite lookup_singleton_is_Some.
    split; [intros <-; by left | intros [->|Hin]; [done|]].
    by apply elem_of_nil in Hin.
  - rewrite count_names_snoc. cbn [snd]. unfold count_incr.
    rewrite lookup_insert_is_Some, IH, elem_of_app, list_elem_of_singleton.
    destruct (decide (n = k)) as [->|Hne]; [tauto|].
    split; [intros [?|[_ [?|?]]]; tauto | intros [?|[?|?]]; try tauto].
    congruence.
Qed.

Lemma count_names_lookup (names : list string) (k : string) :
  snd (count_names names) !! k
  = if decide (k = "person" ∨ k ∈ names)
    then Some (occurrences k names) else None.
Proof.
  pose proof (count_names_dom names k) as Hdom.
  pose proof (count_names_total names k) as Htot.
  destruct (decide (k = "person" ∨ k ∈ names)) as [Hin|Hout].
  - apply Hdom in Hin as [c Hc]. rewrite Hc in Htot |- *. cbn in Htot.
    by rewrite Htot.
  - destruct (snd (count_names names) !! k) as [c|] eqn:Hc; [|done].
    exfalso. apply Hout, Hdom. by eexists.
Qed.

Lemma add_class_counts_get `{CxxRuntime} (counts : list string * gmap string Z)
    (j : list (string * json)) (k : string) :
  obj_get k (add_class_counts counts j)
  = match snd counts !! k with
    | Some c => Some (JInt c)
    | None => obj_get k j
    end.
Proof.
  unfold add_class_counts.
  destruct (snd counts !! k) as [c|] eqn:Hk.
  - apply add_entries_member; [apply unordered_order_NoDup|].
    by apply unordered_order_elem.
  - apply add_entries_other. intros Hin.
    apply list_elem_of_fmap in Hin as ([k' c] & -> & Hin).
    apply unordered_order_elem in Hin. cbn in Hk. congruence.
Qed.

(** X9. Reading the SelectiveJson object back gives the count table: a
    key that is person or the (renamed) name of a valid selected
    detection holds the number of such detections with that name, so
    person is present with 0 even when every person was renamed away; no
    other class key exists; and the timestamp key holds the capture time
    unless a class is itself called timestamp, in which case its count
    has replaced the time. *)
Theorem SelectiveJson_object_lookup `{CxxRuntime} (cm : gmap string string)
    (r : InferenceResult) (k : string) :
  let names := map (λ d, mapClassName cm (name d)) (selected_valid r) in
  obj_get k (SelectiveJsonMessageFormatter_json cm r)
  = if decide (k = "person" ∨ k ∈ names)
    then Some (JInt (occurrences k names))
    else if decide (k = "timestamp")
         then Some (JInt (to_time_t (timestamp r)))
         else None.
Proof.
  cbn zeta. unfold SelectiveJsonMessageFormatter_json.
  rewrite add_class_counts_get, Selective_class_counts_filter,
    count_names_lookup.
  destruct (decide (k = "person" ∨ _)); [done|].
  destruct (decide (k = "timestamp")) as [->|Hne]; [reflexivity|].
  cbn [obj_get obj_set]. by apply String.eqb_neq in Hne as ->.
Qed.

(** The formatter test with a rename table: person is renamed to people,
    and the person key is still there, with 0. *)
Example SelectiveJson_renamed_person_keeps_floor :
  let d := λ id n, mk_det (mk_box 10 10 50 50) (S754_finite false 3 (-2)) id n in
  SelectiveJsonMessageFormatter_json
    {[ "person" := "people"; "car" := "vehicle" ]}
    (mk_result (mk_list 3 [d 0 "person"; d 2 "car"; d 7 "truck"]) 0 [0; 2; 7])
  = [("people", JInt 1); ("person", JInt 0); ("timestamp", JInt 0);
     ("truck", JInt 1); ("vehicle", JInt 1)].
Proof. reflexivity. Qed.

Lemma total_count_perm (l l' : list (string * Z)) :
  l ≡ₚ l' → total_count l = total_count l'.
Proof.
  unfold total_count. induction 1; cbn; lia.
Qed.

Lemma total_count_cons (entry : string * Z) (l : list (string * Z)) :
  total_count (entry :: l) = snd entry + total_count l.
Proof. reflexivity. Qed.

Lemma total_count_table (names : list string) :
  total_count (map_to_list (snd (count_names names)))
  = Z.of_nat (length names).
Proof.
  induction names as [|n names IH] using rev_ind.
  - cbn. unfold person_floor. by rewrite map_to_list_singleton.
  - rewrite count_names_snoc, length_app, Nat2Z.inj_add.
    cbn [snd length]. unfold count_incr.
    remember (snd (count_names names)) as table eqn:Htable. clear Htable.
    destruct (table !! n) as [c|] eqn:Hn; cbn [default].
    + rewrite <- (insert_delete_eq table n (c + 1)).
      rewrite (total_count_perm _ ((n, c + 1) :: map_to_list (delete n table)))
        by (apply map_to_list_insert, lookup_delete_eq).
      rewrite <- (total_count_perm _ _ (map_to_list_delete table n c Hn)) in IH.
      rewrite total_count_cons in IH |- *. cbn [snd] in *.
      generalize dependent (total_count (map_to_list (delete n table))).
      intros rest IH. lia.
    + rewrite (total_count_perm _ ((n, 0 + 1) :: map_to_list table))
        by (by apply map_to_list_insert).
      rewrite total_count_cons. cbn [snd].
      generalize dependent (total_count (map_to_list table)).
      intros rest IH. lia.
Qed.

(** X10. The counts a Selective formatter prints add up to the number of
    valid selected detections, whatever the rename table and the
    iteration order; each single count lies between 0 and the capacity
    of the detection array, so the [int] counters never overflow. *)
Theorem Selective_counts_add_up `{CxxRuntime} (cm : gmap string string)
    (r : InferenceResult) :
  let counts := Selective_class_counts cm r in
  let entries := unordered_order (fst counts) (snd counts) in
  total_count entries = Z.of_nat (length (selected_valid r)) ∧
  Forall (λ entry, 0 ≤ snd entry ≤ Z.of_nat OBJ_NUMB_MAX_SIZE) entries.
Proof.
  cbn zeta. rewrite Selective_class_counts_filter.
  set (names := map _ (selected_valid r)).
  assert (Hlen : length names = length (selected_valid r))
    by apply length_map.
  split.
  - rewrite (total_count_perm _ _ (unordered_order_perm _ _)).
    by rewrite total_count_table, Hlen.
  - apply Forall_forall. intros [k c] Hin.
    apply unordered_order_elem in Hin.
    apply count_names_bounded in Hin. cbn [snd].
    pose proof (selected_valid_length r). lia.
Qed.

(** X11. The number the Faces formatters print lies between 0 and the
    capacity of the detection array, never exceeds a non-negative
    [count] field, and is at least the number of valid selected
    detections of class 0: unlike the filtering formatters they count
    class-0 slots of any confidence and under any filter. *)
Theorem people_count_bounds (r : InferenceResult) :
  0 ≤ people_count r ≤ Z.of_nat OBJ_NUMB_MAX_SIZE ∧
  people_count r ≤ Z.max 0 (count (detections r)) ∧
  Z.of_nat (length (List.filter (λ d, cls_id d =? 0) (selected_valid r)))
  ≤ people_count r ∧
  ∀ selected, people_count (with_filter r selected) = people_count r.
Proof.
  rewrite people_count_filter.
  pose proof (filter_length_le (λ d, cls_id d =? 0) (visited (detections r)))
    as Hle.
  pose proof (visited_length (detections r)) as Hcap.
  assert (Hcount : (length (visited (detections r))
                    ≤ Z.to_nat (count (detections r)))%nat).
  { unfold visited. rewrite length_take. lia. }
  repeat apply conj; try lia.
  - unfold selected_valid.
    assert (Hsub : ∀ (p q : object_detect_result → bool) l,
      (length (List.filter q (List.filter p l)) ≤ length (List.filter q l))%nat).
    { intros p q l. induction l as [|d l IH]; cbn; [lia|].
      destruct (p d); cbn; destruct (q d); cbn; lia. }
    specialize (Hsub (passes r) (λ d, cls_id d =? 0) (visited (detections r))).
    lia.
  - intros selected. apply (people_count_filter (with_filter r selected)).
Qed.

(** X12. The [suppress_empty] flag of the FullJson formatter matters only
    for results without a valid selected detection: on every other
    result both settings return the same, non-empty message. *)
Theorem FullJson_flag_only_on_empty `{CxxRuntime} (r : InferenceResult) :
  selected_valid r ≠ [] →
  formatMessage (FullJsonMessageFormatter true) r
  = formatMessage (FullJsonMessageFormatter false) r ∧
  formatMessage (FullJsonMessageFormatter true) r ≠ "".
Proof.
  intros Hsome. cbn [formatMessage].
  unfold FullJsonMessageFormatter_formatMessage.
  rewrite FullJson_detections_filter. cbn [andb].
  destruct (selected_valid r) as [|d l]; [done|]. cbn [map vector_empty].
  split; [reflexivity | apply dump_object_nonempty].
Qed.

Lemma FullJson_flag_only_on_empty_witness :
  let r := mk_result
             (mk_list 1 [mk_det (mk_box 1 2 3 4) (S754_finite false 3 (-2))
                                2 "car"]) 0 [] in
  formatMessage (FullJsonMessageFormatter true) r
  = formatMessage (FullJsonMessageFormatter false) r ∧
  formatMessage (FullJsonMessageFormatter true) r ≠ "".
Proof.
  apply (FullJson_flag_only_on_empty (H := sample_runtime)).
  discriminate.
Defined.

(** X13. Widening the class filter never loses a detection: if the filter
    is replaced by the empty one (all classes) or a non-empty filter by
    one that contains all its ids, the detections let through before
    are still let through, in the same order. *)
Theorem selected_valid_monotone (r : InferenceResult) (narrow wide : list Z) :
  wide = [] ∨ (narrow ≠ [] ∧ narrow ⊆ wide) →
  selected_valid (with_filter r narrow)
  = List.filter (passes (with_filter r narrow))
                (selected_valid (with_filter r wide)) ∧
  sublist (selected_valid (with_filter r narrow))
          (selected_valid (with_filter r wide)).
Proof.
  intros Hwide.
  assert (Himp : ∀ d, passes (with_filter r narrow) d = true →
                      passes (with_filter r wide) d = true).
  { intros d. unfold passes. cbn [with_filter selected_classes].
    intros [Hvalid Hsel]%andb_true_iff. rewrite Hvalid. cbn [andb].
    destruct Hwide as [->|[Hne Hsub]]; [reflexivity|].
    apply isClassSelected_nonempty in Hsel; [|done].
    destruct wide as [|c wide]; [by apply Hsub, elem_of_nil in Hsel|].
    apply isClassSelected_cons. by apply Hsub. }
  assert (Heq : selected_valid (with_filter r narrow)
                = List.filter (passes (with_filter r narrow))
                              (selected_valid (with_filter r wide))).
  { unfold selected_valid. cbn [with_filter detections].
    symmetry. by apply filter_filter_implied. }
  split; [exact Heq|]. rewrite Heq.
  generalize (selected_valid (with_filter r wide)). intros l.
  induction l as [|d l IH]; cbn; [constructor|].
  destruct (passes _ d); [by apply sublist_skip | by apply sublist_cons].
Qed.

Lemma selected_valid_monotone_witness :
  let r := mk_result
             (mk_list 2 [mk_det (mk_box 1 2 3 4) (S754_finite false 3 (-2))
                                2 "car";
                         mk_det (mk_box 1 2 3 4) (S754_finite false 3 (-2))
                                0 "person"]) 0 [] in
  selected_valid (with_filter r [0])
  = List.filter (passes (with_filter r [0]))
                (selected_valid (with_filter r [2; 0])) ∧
  sublist (selected_valid (with_filter r [0]))
          (selected_valid (with_filter r [2; 0])).
Proof.
  apply selected_valid_monotone. right. split; [discriminate|].
  intros x Hx. apply list_elem_of_singleton in Hx as ->. right. left.
Defined.

(** ** File transport: what send and the constructor do *)

Ltac step_send :=
  repeat match goal with
  | |- context [respond ?w ?l ?c] =>
      let r := fresh "answer" in
      destruct (respond w l c) eqn:r; cbn [negb fst snd respond log]
  end.

(** X14. [send] leaves the transport object as it was, only ever appends
    to the log, and touches nothing but the temporary file: every call
    it issues is an open, write, reopen, fsync or removal of
    [filepath.tmp] or the rename of [filepath.tmp] onto [filepath].  When
    it returns true, the last call is that rename and the data was
    written to the temporary file before; the temporary file is removed
    only on a failed send. *)
Theorem FileTransport_send_calls (this : FileTransport) (data : string)
    (w : World) :
  let result := FileTransport_send this data w in
  snd (fst result) = this ∧
  respond (snd result) = respond w ∧
  ∃ calls,
    log (snd result) = log w ++ calls ∧
    Forall (λ c, c ∈ send_calls this data) calls ∧
    (fst (fst result) = true →
     enabled this = true ∧
     ∃ before, calls = before ++ [IoRename (temp_path this) (filepath this)] ∧
               IoWriteFlush (temp_path this) data ∈ before) ∧
    (IoRemove (temp_path this) ∈ calls → fst (fst result) = false).
Proof.
  cbn zeta. unfold FileTransport_send.
  destruct (enabled this) eqn:Hen; cbn [negb].
  2:{ cbn. repeat split. exists []. rewrite app_nil_r.
      repeat split; [constructor | discriminate | done]. }
  fold (temp_path this). unfold bind, call, ret. cbn [respond log].
  step_send; (split; [reflexivity|]); (split; [reflexivity|]);
    rewrite <- ?app_assoc; cbn [app];
    eexists; (split; [reflexivity|]);
    (split; [unfold send_calls; repeat constructor; set_solver|]);
    (split; [try discriminate | try done]).
  all: try (intros _; split; [done|]).
  all: try (eexists [_; _; _; _]; split; [reflexivity | set_solver]).
  all: try (eexists [_; _; _]; split; [reflexivity | set_solver]).
  all: try (intros Hin; exfalso; set_solver).
Qed.

(** X15. In an environment whose answers do not depend on what happened
    before, [send] succeeds exactly when the transport is enabled, the
    temporary file can be opened and written, the rename succeeds, and
    the fsync succeeds if the file could be reopened for it: when the
    reopen fails the fsync is skipped and [send] can still succeed. *)
Theorem FileTransport_send_succeeds_iff (this : FileTransport) (data : string)
    (w : World) (answer : io_call → bool) :
  (∀ history c, respond w history c = answer c) →
  fst (fst (FileTransport_send this data w)) = true ↔
  enabled this = true ∧
  answer (IoOpenTrunc (temp_path this)) = true ∧
  answer (IoWriteFlush (temp_path this) data) = true ∧
  (answer (IoOpenRead (temp_path this)) = true →
   answer (IoFsync (temp_path this)) = true) ∧
  answer (IoRename (temp_path this) (filepath this)) = true.
Proof.
  intros Hw. unfold FileTransport_send.
  destruct (enabled this); cbn [negb]; [|cbn; naive_solver].
  fold (temp_path this). unfold bind, call, ret. cbn [respond log].
  rewrite !Hw.
  destruct (answer (IoOpenTrunc (temp_path this)));
    cbn [negb fst snd respond log]; [|naive_solver].
  rewrite !Hw.
  destruct (answer (IoWriteFlush (temp_path this) data));
    cbn [negb fst snd respond log]; [|naive_solver].
  rewrite !Hw.
  destruct (answer (IoOpenRead (temp_path this)));
    cbn [negb fst snd respond log]; rewrite ?Hw.
  - destruct (answer (IoFsync (temp_path this)));
      cbn [negb fst snd respond log]; rewrite ?Hw; [|naive_solver].
    destruct (answer (IoRename (temp_path this) (filepath this)));
      cbn [negb fst snd respond log]; naive_solver.
  - destruct (answer (IoRename (temp_path this) (filepath this)));
      cbn [negb fst snd respond log]; naive_solver.
Qed.

Lemma FileTransport_send_succeeds_iff_witness :
  fst (fst (FileTransport_send (mk_file_transport "/tmp/results.json" true)
              "{}"
              (mk_world (λ _ c, match c with IoOpenRead _ => false
                                         | _ => true end) []))) = true ↔
  true = true ∧ true = true ∧ true = true ∧ (false = true → true = true) ∧
  true = true.
Proof.
  apply (FileTransport_send_succeeds_iff
           (mk_file_transport "/tmp/results.json" true) "{}"
           (mk_world (λ _ c, match c with IoOpenRead _ => false
                                      | _ => true end) [])
           (λ c, match c with IoOpenRead _ => false | _ => true end)).
  reflexivity.
Defined.


Lemma file_step_keeps_object (this : FileTransport) (op : file_op) (w : World) :
  snd (fst (file_step this op w)) = this.
Proof.
  destruct op as [data|]; cbn [file_step]; [|done].
  unfold FileTransport_send.
  destruct (enabled this); cbn [negb]; [|done].
  unfold bind, call, ret. cbn [respond log]. step_send; reflexivity.
Qed.

(** X17. No sequence of [send] and [isConnected] calls changes a file
    transport: the object after the calls is the object before, so an
    enabled transport stays enabled however many sends fail, and every
    [isConnected] in the sequence answers the constructor's verdict. *)
Theorem file_run_keeps_object (this : FileTransport) (ops : list file_op)
    (w : World) :
  snd (fst (file_run this ops w)) = this ∧
  length (fst (fst (file_run this ops w))) = length ops ∧
  ∀ i, ops !! i = Some OpIsConnected →
       fst (fst (file_run this ops w)) !! i = Some (enabled this).
Proof.
  revert w. induction ops as [|op ops IH]; intros w.
  - repeat split. intros i Hi. by rewrite lookup_nil in Hi.
  - cbn [file_run]. unfold bind, ret.
    pose proof (file_step_keeps_object this op w) as Hstep.
    destruct (file_step this op w) as [[r this'] w'] eqn:Hrun.
    cbn [fst snd] in Hstep |- *. subst this'.
    specialize (IH w').
    destruct (file_run this ops w') as [[rs this''] w''].
    cbn [fst snd length] in IH |- *. destruct IH as (-> & Hlen & Hconn).
    split; [done|]. split; [simpl; lia|].
    intros [|i] Hi; cbn in Hi |- *; [|by apply Hconn].
    injection Hi as ->. cbn [file_step] in Hrun.
    unfold ret in Hrun. by injection Hrun as <- _.
Qed.

(** ** The publisher loop *)

(** X18. While its transport reports not connected, a publisher only
    logs: for every popped result it records the skip and immediately
    takes the next one, without formatting, without calling [send],
    without touching the world, and without sleeping (the [continue]
    bypasses the pacing). *)
Theorem Publisher_run_not_connected `{CxxRuntime} {T : Type} `{Transport T}
    (this : Publisher T) (popped : list InferenceResult) (w : World) :
  isConnected (transport this) = false →
  Publisher_run this popped w
  = ((replicate (length popped) EvNotConnected, this), w).
Proof.
  intros Hoff. induction popped as [|result popped IH]; [reflexivity|].
  cbn [Publisher_run]. unfold bind at 1. unfold Publisher_iteration.
  rewrite Hoff. cbn [negb]. unfold ret at 1. cbn [fst snd existsb
    is_division_by_zero orb]. unfold bind, ret. rewrite IH. reflexivity.
Qed.

Lemma Publisher_run_not_connected_witness :
  Publisher_run
    (Publisher_ctor (mk_file_transport "/media/absent/results.json" false)
       global_resultQueue global_running (JsonMessageFormatter false) 1)
    [mk_result (mk_list 0 []) 0 [0]; mk_result (mk_list 0 []) 1 [0]]
    (mk_world (λ _ _, true) [])
  = ((replicate 2 EvNotConnected,
      Publisher_ctor (mk_file_transport "/media/absent/results.json" false)
        global_resultQueue global_running (JsonMessageFormatter false) 1),
     mk_world (λ _ _, true) []).
Proof.
  apply (Publisher_run_not_connected (H := sample_runtime)
           (Publisher_ctor (mk_file_transport "/media/absent/results.json" false)
              global_resultQueue global_running (JsonMessageFormatter false) 1)
           [mk_result (mk_list 0 []) 0 [0]; mk_result (mk_list 0 []) 1 [0]]).
  reflexivity.
Defined.

Lemma FileTransport_send_keeps_object (this : FileTransport) (data : string)
    (w : World) :
  snd (fst (FileTransport_send this data w)) = this.
Proof. apply (file_step_keeps_object this (OpSend data) w). Qed.

Lemma Publisher_run_file_events `{CxxRuntime} (this : Publisher FileTransport)
    (popped : list InferenceResult) :
  enabled (transport this) = true →
  target_mps this ≠ 0 →
  ∀ w, ∃ events w',
    Publisher_run this popped w = ((events, this), w') ∧
    sent_messages events = map (formatMessage (formatter this)) popped ∧
    sleeps events
    = replicate (length popped) (Z.quot 1000 (target_mps this)).
Proof.
  intros Hon Hrate.
  induction popped as [|result popped IH]; intros w.
  { by exists [], w. }
  cbn [Publisher_run]. unfold bind at 1. unfold Publisher_iteration.
  cbn [isConnected send FileTransport_Transport].
  unfold FileTransport_isConnected. rewrite Hon. cbn [negb].
  unfold bind at 1.
  pose proof (FileTransport_send_keeps_object (transport this)
                (formatMessage (formatter this) result) w) as Hkeep.
  destruct (FileTransport_send (transport this)
              (formatMessage (formatter this) result) w)
    as [[ok transport'] w'].
  cbn [fst snd] in Hkeep |- *. subst transport'.
  assert (Hthis : mk_publisher (transport this) (resultQueue this)
                    (running this) (target_mps this) (formatter this) = this)
    by by destruct this.
  rewrite Hthis. unfold ret at 1. cbn [fst snd].
  assert (Hpace : pace (target_mps this) = EvSleep (Z.quot 1000 (target_mps this))).
  { unfold pace. by apply Z.eqb_neq in Hrate as ->. }
  rewrite Hpace.
  assert (Hnodiv : existsb is_division_by_zero
            ([EvSend (formatMessage (formatter this) result) ok]
             ++ (if ok then [] else [EvSendFailed])
             ++ [EvSleep (Z.quot 1000 (target_mps this))]) = false)
    by by destruct ok.
  rewrite Hnodiv. unfold bind, ret.
  destruct (IH w') as (events & w'' & -> & Hsent & Hsleeps).
  cbn [fst snd]. eexists _, _. split; [reflexivity|].
  unfold sent_messages, sleeps in *.
  destruct ok; cbn; rewrite ?Hsent, ?Hsleeps; done.
Qed.



(** X20. The pacing interval is the truncated quotient [1000 / rate]:
    for a rate from 1 to 1000 it is between 1 and 1000 ms and the
    largest interval that fits the rate; a rate above 1000 gives an
    interval of 0, that is no pacing at all; a negative rate gives a
    non-positive interval; the rate 0 has none. *)
Theorem pace_interval (rate : Z) :
  (1 ≤ rate ≤ 1000 →
   ∃ ms, pace rate = EvSleep ms ∧ 1 ≤ ms ≤ 1000 ∧
         ms * rate ≤ 1000 < (ms + 1) * rate) ∧
  (1000 < rate → pace rate = EvSleep 0) ∧
  (rate < 0 → ∃ ms, pace rate = EvSleep ms ∧ -1000 ≤ ms ≤ 0) ∧
  (pace rate = EvDivisionByZero ↔ rate = 0).
Proof.
  unfold pace. repeat apply conj.
  - intros Hrate. exists (Z.quot 1000 rate).
    destruct (Z.eqb_spec rate 0) as [->|_]; [lia|]. split; [done|].
    rewrite Z.quot_div_nonneg by lia.
    pose proof (Z.div_mod 1000 rate) as Hdm.
    pose proof (Z.mod_pos_bound 1000 rate) as Hmod.
    assert (1 ≤ 1000 / rate) by (apply Z.div_le_lower_bound; lia).
    assert (1000 / rate ≤ 1000) by (apply Z.div_le_upper_bound; lia).
    nia.
  - intros Hrate. destruct (Z.eqb_spec rate 0) as [->|_]; [lia|].
    f_equal. apply Z.quot_small. lia.
  - intros Hrate. exists (Z.quot 1000 rate).
    destruct (Z.eqb_spec rate 0) as [->|_]; [lia|]. split; [done|].
    rewrite <- (Z.opp_involutive rate), Z.quot_opp_r by lia.
    rewrite Z.quot_div_nonneg by lia.
    assert (0 ≤ 1000 / - rate) by (apply Z.div_pos; lia).
    assert (1000 / - rate ≤ 1000) by (apply Z.div_le_upper_bound; lia).
    lia.
  - destruct (Z.eqb_spec rate 0); [done | discriminate].
  - by intros ->.
Qed.



Lemma Publisher_iteration_config `{CxxRuntime} {T : Type} `{Transport T}
    (this : Publisher T) (result : InferenceResult) (w : World) :
  let this' := snd (fst (Publisher_iteration this result w)) in
  resultQueue this' = resultQueue this ∧ running this' = running this ∧
  target_mps this' = target_mps this ∧ formatter this' = formatter this.
Proof.
  cbn zeta. unfold Publisher_iteration.
  destruct (isConnected (transport this)); cbn [negb]; [|done].
  unfold bind, ret.
  by destruct (send (transport this) (formatMessage (formatter this) result) w)
    as [[ok transport'] w'].
Qed.

Lemma Publisher_run_config `{CxxRuntime} {T : Type} `{Transport T}
    (popped : list InferenceResult) :
  ∀ (this : Publisher T) (w : World), ∃ events this' w',
    Publisher_run this popped w = ((events, this'), w') ∧
    resultQueue this' = resultQueue this ∧ running this' = running this ∧
    target_mps this' = target_mps this ∧ formatter this' = formatter this.
Proof.
  induction popped as [|result popped IH]; intros this w.
  { by exists [], this, w. }
  cbn [Publisher_run]. unfold bind at 1.
  pose proof (Publisher_iteration_config this result w) as Hiter.
  cbn zeta in Hiter.
  destruct (Publisher_iteration this result w) as [[events this1] w1].
  cbn [fst snd] in Hiter |- *.
  destruct (existsb is_division_by_zero events).
  { by exists events, this1, w1. }
  unfold bind, ret.
  destruct (IH this1 w1) as (events' & this2 & w2 & -> & Hconfig).
  cbn [fst snd]. eexists _, this2, _. split; [reflexivity|].
  destruct Hiter as (<- & <- & <- & <-). exact Hconfig.
Qed.

(** X22. Running the loop never rebinds a publisher: whatever transport
    it has and whatever happens to the sends, after any number of popped
    results it still refers to the same queue and running flag and holds
    the same rate and formatter; only the transport object may have been
    changed by its own [send]. *)
Theorem Publisher_run_keeps_config `{CxxRuntime} {T : Type} `{Transport T}
    (this : Publisher T) (popped : list InferenceResult) (w : World) :
  let this' := snd (fst (Publisher_run this popped w)) in
  resultQueue this' = resultQueue this ∧ running this' = running this ∧
  target_mps this' = target_mps this ∧ formatter this' = formatter this.
Proof.
  intros this'.
  destruct (Publisher_run_config popped this w)
    as (events & this1 & w1 & Hrun & Hconfig).
  subst this'. rewrite Hrun. exact Hconfig.
Qed.

(** ** The mock registry of the tests *)

(** X23. The mock registry reads back what was set last under a key and
    leaves other keys alone; a key that was never set, and every key
    after [mock_registry_clear], reads as the empty string, so a stored
    empty value cannot be told from a missing one. *)
Theorem mock_registry_get_set (key key' value : string)
    (data : gmap string string) :
  mock_registry_get key (mock_registry_set key' value data)
  = (if decide (key = key') then value else mock_registry_get key data) ∧
  mock_registry_get key (mock_registry_clear data) = "" ∧
  mock_registry_get key (mock_registry_set key "" data)
  = mock_registry_get key (delete key data).
Proof.
  unfold mock_registry_get, mock_registry_set, mock_registry_clear.
  repeat apply conj.
  - destruct (decide (key = key')) as [->|Hne].
    + by rewrite lookup_insert_eq.
    + by rewrite lookup_insert_ne.
  - by rewrite lookup_empty.
  - by rewrite lookup_insert_eq, lookup_delete_eq.
Qed.

(** X24. [mock_registry_command] succeeds exactly when the registry holds
    a non-empty value under [section-key] that is shorter than the
    buffer; it then writes that value, which fits the buffer together
    with its terminator.  In every other case, a stored empty value
    included, it returns -1 and leaves the buffer untouched. *)
Theorem mock_registry_command_result (section key : string)
    (result_size : nat) (data : gmap string string) :
  let outcome := mock_registry_command section key result_size data in
  (fst outcome = 0 ∨ fst outcome = -1) ∧
  (fst outcome = 0 ↔
   ∃ value, data !! (section +:+ "-" +:+ key) = Some value ∧ value ≠ "" ∧
            (String.length value < result_size)%nat) ∧
  (fst outcome = -1 ↔ snd outcome = None) ∧
  ∀ written, snd outcome = Some written →
             data !! (section +:+ "-" +:+ key) = Some written ∧
             (String.length written + 1 ≤ result_size)%nat.
Proof.
  cbn zeta. unfold mock_registry_command, mock_registry_get.
  destruct (data !! (section +:+ "-" +:+ key)) as [value|] eqn:Hdata.
  - destruct value as [|c value]; cbn [string_empty].
    + cbn [fst snd]. split; [by right|]. split; [|split; [done|done]].
      split; [done|]. by intros (v & [= <-] & Hne & _).
    + destruct (Nat.leb_spec result_size (String.length (String c value)))
        as [Hbig|Hfits]; cbn [fst snd].
      * split; [by right|]. split; [|split; [done|done]].
        split; [done|]. intros (v & [= <-] & _ & Hlt). lia.
      * split; [by left|]. split; [|split].
        -- split; [|done]. intros _. by exists (String c value).
        -- done.
        -- intros written [= <-]. split; [done|lia].
  - cbn [string_empty fst snd]. split; [by right|].
    split; [|split; [done|done]].
    split; [done|]. by intros (v & Hv & _).
Qed.

(** X25. The registry key is the plain concatenation [section-key], so
    the dash does not separate the two parts: a section ending in [-x]
    with key [y] is the same entry as the section without it and the key
    [x-y]. *)
Theorem mock_registry_command_collision (section part key : string)
    (result_size : nat) (data : gmap string string) :
  mock_registry_command (section +:+ "-" +:+ part) key result_size data
  = mock_registry_command section (part +:+ "-" +:+ key) result_size data.
Proof.
  unfold mock_registry_command.
  by rewrite !append_assoc.
Qed.

(** ** The mock result builder of the tests *)

(** X26. [createMockInferenceResult] hands the formatters exactly the given
    detections as long as there are at most 100 of them.  With more, up
    to the capacity of the array, [count] still says how many were
    given but only 100 were copied: the formatters then visit the first
    100 followed by whatever the uninitialised slots held. *)
Theorem createMockInferenceResult_visited (stale : list object_detect_result)
    (now : Z) (dets : list object_detect_result) (selected : list Z) :
  let result := createMockInferenceResult stale now dets selected in
  count (detections result) = Z.of_nat (length dets) ∧
  selected_classes result = selected ∧
  ((length dets ≤ 100)%nat → visited (detections result) = dets) ∧
  ((100 < length dets ≤ OBJ_NUMB_MAX_SIZE)%nat →
   length stale = OBJ_NUMB_MAX_SIZE →
   visited (detections result)
   = take 100 dets ++ take (length dets - 100) (drop 100 stale)).
Proof.
  cbn zeta. unfold createMockInferenceResult, visited.
  cbn [detections count results selected_classes]. rewrite Nat2Z.id.
  split; [done|]. split; [done|]. split.
  - intros Hfew. rewrite Nat.min_l by done.
    rewrite (take_ge dets (length dets)) by done.
    rewrite take_take, Nat.min_l by (unfold OBJ_NUMB_MAX_SIZE; lia).
    by rewrite take_app_length.
  - intros [Hmany Hcap] Hstale. rewrite Nat.min_r by lia.
    rewrite take_take, Nat.min_l by lia.
    rewrite take_app_ge by (rewrite length_take; lia).
    rewrite length_take. f_equal. f_equal. lia.
Qed.

(** ** From the command line to the filter *)

Lemma loadCocoClassMapping_empty (content : string) :
  loadCocoClassMapping (Some content) = ∅ ↔ file_labels content = [].
Proof.
  split.
  - intros Hempty.
    destruct (file_labels content) as [|l labels] eqn:Hlabels
      using rev_ind; [done|]. clear IHlabels. exfalso.
    pose proof (proj2 (loadCocoClassMapping_numbering_aux content l
                         (Z.of_nat (length labels)))) as Hnum.
    rewrite Hempty, lookup_empty, Hlabels in Hnum.
    assert (Hsome : (None : option Z) = Some (Z.of_nat (length labels)));
      [|done].
    apply Hnum. exists (length labels). split; [done|].
    rewrite lookup_app_r, Nat.sub_diag by lia. split; [done|].
    rewrite drop_ge; [apply not_elem_of_nil|].
    rewrite length_app. cbn. lia.
  - intros Hnone. apply map_eq. intros label. rewrite lookup_empty.
    destruct (loadCocoClassMapping (Some content) !! label) as [id|] eqn:Hid;
      [|done].
    apply loadCocoClassMapping_numbering_aux in Hid as (n & _ & Hn & _).
    by rewrite Hnone, lookup_nil in Hn.
Qed.


(** X28. The two Selective wire formats agree: a [name:count] field is in
    the BrightScript message exactly when the JSON object holds that
    count under that name, for every name other than timestamp. *)
Theorem Selective_formats_agree `{CxxRuntime} (cm : gmap string string)
    (r : InferenceResult) (k : string) (c : Z) :
  k ≠ "timestamp" →
  let counts := Selective_class_counts cm r in
  (k, c) ∈ unordered_order (fst counts) (snd counts) ↔
  obj_get k (SelectiveJsonMessageFormatter_json cm r) = Some (JInt c).
Proof.
  intros Hk. cbn zeta. rewrite unordered_order_elem.
  unfold SelectiveJsonMessageFormatter_json. rewrite add_class_counts_get.
  destruct (snd (Selective_class_counts cm r) !! k) as [c'|].
  - split; [by intros [= ->] | by intros [= ->]].
  - cbn [obj_get obj_set]. apply String.eqb_neq in Hk as ->. done.
Qed.

Lemma Selective_formats_agree_witness :
  let r := mk_result
             (mk_list 1 [mk_det (mk_box 1 2 3 4) (S754_finite false 3 (-2))
                                2 "car"]) 0 [] in
  let counts := Selective_class_counts ∅ r in
  ("car", 1) ∈ unordered_order (fst counts) (snd counts) ↔
  obj_get "car" (SelectiveJsonMessageFormatter_json ∅ r) = Some (JInt 1).
Proof.
  apply (Selective_formats_agree (H := sample_runtime)). discriminate.
Defined.
